(** * Investment projection engine ([investment_projection_app.py])

    A shallow embedding of [calculate_investment_projection], the Monte
    Carlo engine behind the projection page, and the properties of it
    that the design document states.

    Modelling conventions.
    - Python [int]s are [Z]; loop and array indices are the [Z]s that
      [range] produces, normalised the way numpy does (a negative index
      counts from the end, anything else out of range raises
      [IndexError]).
    - numpy [float64] values are idealised as real numbers ([R]):
      rounding, overflow and NaN are not modelled.  Every statement
      below about amounts is a statement about exact arithmetic, and
      the amounts the engine is given are such values (a Python [int]
      too large for a float is not one).
    - The machine's side of an allocation is a parameter, [memory]:
      the largest array, in bytes, the allocator grants.  [np.zeros]
      fails with [MemoryError] beyond it, and with [ValueError] beyond
      numpy's own size limit.  The arrays numpy allocates later in a
      run are no larger than the two that [np.zeros] is asked for.
    - The global numpy random generator is an explicit state [rng]
      threaded through the computation; [np_random_normal] is a
      parameter of the development, so every theorem holds for all
      possible draws.
    - Python exceptions are results: a computation is a function from
      the generator state to an [outcome] and the next generator state. *)

From Stdlib Require Import Reals Psatz ZArith.
From stdpp Require Import base tactics option list list_numbers sorting gmap.

Set Default Proof Using "Type".

(** ** Exceptions and the computation monad *)

Inductive exception : Type :=
| KeyError (key : Z)
| ValueError
| IndexError
| MemoryError.

Inductive outcome (A : Type) : Type :=
| Returns (a : A)
| Raises (e : exception).
Arguments Returns {A} a.
Arguments Raises {A} e.

Definition py (rng A : Type) : Type := rng → outcome A * rng.

Definition ret {rng A} (a : A) : py rng A := λ g, (Returns a, g).

Definition raise {rng A} (e : exception) : py rng A := λ g, (Raises e, g).

Definition bind {rng A B} (m : py rng A) (k : A → py rng B) : py rng B :=
  λ g, match m g with
       | (Returns a, g') => k a g'
       | (Raises e, g') => (Raises e, g')
       end.

#[global] Instance py_ret {rng} : MRet (py rng) := λ A, ret.
#[global] Instance py_bind {rng} : MBind (py rng) := λ A B k m, bind m k.

(** [for x in xs: body], the loop state passed explicitly. *)
Fixpoint for_in {rng A S} (xs : list A) (body : A → S → py rng S) (s : S)
    : py rng S :=
  match xs with
  | [] => ret s
  | x :: xs' => s' ← body x s; for_in xs' body s'
  end.

(** [range(start, stop)] *)
Definition range (start stop : Z) : list Z := seqZ start (stop - start).

(** ** numpy arrays *)

(** A two-dimensional [float64] array, row major. *)
Abbreviation ndarray := (list (list R)).

(** The largest [npy_intp], numpy's bound on a dimension and on the
    size of an array in bytes. *)
Definition NPY_MAX_INTP : Z := 9223372036854775807.

(** The size in bytes of an array of the shape [dims], counted as numpy
    does when it creates one, starting from the item size: a zero
    dimension is skipped, a negative one is refused, and so is a
    product beyond [NPY_MAX_INTP]. *)
Fixpoint array_nbytes (nbytes : Z) (dims : list Z) : option Z :=
  match dims with
  | [] => Some nbytes
  | d :: dims' =>
      if bool_decide (d = 0)%Z then array_nbytes nbytes dims'
      else if bool_decide (d < 0)%Z then None
      else if bool_decide (NPY_MAX_INTP < nbytes * d)%Z then None
      else array_nbytes (nbytes * d)%Z dims'
  end.

(** [np.zeros((rows, cols))] of [float64], 8 bytes an item: a shape
    numpy refuses is a [ValueError] ("negative dimensions are not
    allowed", "array is too big", "Maximum allowed dimension
    exceeded"), a size the allocator does not grant a [MemoryError]. *)
Definition np_zeros {rng} (memory : Z) (rows cols : Z) : py rng ndarray :=
  match array_nbytes 8 [rows; cols] with
  | None => raise ValueError
  | Some nbytes =>
      if bool_decide (memory < nbytes)%Z then raise MemoryError
      else ret (replicate (Z.to_nat rows) (replicate (Z.to_nat cols) 0%R))
  end.

(** Index normalisation along an axis of length [len]. *)
Definition normalize_index (len : nat) (i : Z) : option nat :=
  if bool_decide (0 ≤ i < Z.of_nat len)%Z then Some (Z.to_nat i)
  else if bool_decide (- Z.of_nat len ≤ i < 0)%Z
       then Some (Z.to_nat (i + Z.of_nat len))
       else None.

(** [a[i, j]] *)
Definition getitem {rng} (a : ndarray) (i j : Z) : py rng R :=
  match normalize_index (length a) i with
  | None => raise IndexError
  | Some i' =>
      match a !! i' with
      | None => raise IndexError
      | Some row =>
          match normalize_index (length row) j with
          | None => raise IndexError
          | Some j' =>
              match row !! j' with
              | None => raise IndexError
              | Some x => ret x
              end
          end
      end
  end.

(** [a[i, j] = x] *)
Definition setitem {rng} (a : ndarray) (i j : Z) (x : R) : py rng ndarray :=
  match normalize_index (length a) i with
  | None => raise IndexError
  | Some i' =>
      match a !! i' with
      | None => raise IndexError
      | Some row =>
          match normalize_index (length row) j with
          | None => raise IndexError
          | Some j' => ret (<[i' := <[j' := x]> row]> a)
          end
      end
  end.

(** The cell [a[i, j]] when both indices are in range. *)
Definition cell (a : ndarray) (i j : nat) : option R :=
  row ← a !! i; row !! j.

(** [np.arange(n)] *)
Definition np_arange (n : Z) : list Z := seqZ 0 n.

(** [a[i]], a row of the array. *)
Definition getrow {rng} (a : ndarray) (i : Z) : py rng (list R) :=
  match normalize_index (length a) i with
  | None => raise IndexError
  | Some i' =>
      match a !! i' with
      | None => raise IndexError
      | Some row => ret row
      end
  end.

(** ** numpy percentiles

    [np.percentile] is library code; it is modelled by its documented
    default method, ['linear']: on the sorted sample the virtual index
    is [q/100 * (n - 1)], its floor selects the lower neighbour, its
    fractional part is the interpolation weight. *)

#[global] Instance Rle_dec_rel : RelDecision Rle := Rle_dec.
#[global] Instance Rlt_dec_rel : RelDecision Rlt := Rlt_dec.

Definition np_sort (a : list R) : list R := merge_sort Rle a.

(** numpy's [_lerp(a, b, t)] *)
Definition lerp (a b t : R) : R :=
  if decide (t < 0.5)%R then (a + (b - a) * t)%R
  else (b - (b - a) * (1 - t))%R.

(** [np.percentile(a, q)] of a one-dimensional sample. *)
Definition percentile_1d (a : list R) (q : R) : R :=
  let arr := np_sort a in
  let n := length arr in
  let virtual_index := ((INR n - 1) * (q / 100))%R in
  let floor := Int_part virtual_index in
  let previous_index := Z.to_nat floor in
  let next_index := Nat.min (previous_index + 1) (n - 1) in
  let gamma := (virtual_index - IZR floor)%R in
  lerp (default 0%R (arr !! previous_index))
       (default 0%R (arr !! next_index)) gamma.

(** Column [j] of a two-dimensional array, and its number of columns. *)
Definition column (a : ndarray) (j : nat) : list R :=
  (λ row, default 0%R (row !! j)) <$> a.

Definition ncols (a : ndarray) : nat := from_option length 0 (head a).

(** [np.percentile(a, q, axis=0)] *)
Definition np_percentile (a : ndarray) (q : R) : list R :=
  (λ j, percentile_1d (column a j) q) <$> seq 0 (ncols a).

(** ** The result table *)

(** The [pd.DataFrame] the engine returns, column by column. *)
Record DataFrame : Type := mkDataFrame {
  Month : list Z;
  Year : list R;
  Median_Projection : list R;
  Lower_Bound_10 : list R;
  Upper_Bound_90 : list R;
  Cumulative_Investment : list R
}.

(** [pd.DataFrame({...})]: columns of unequal length are a [ValueError]. *)
Definition pd_DataFrame {rng} (month : list Z)
    (year median lower upper cumulative : list R) : py rng DataFrame :=
  let n := length month in
  if bool_decide (length year = n ∧ length median = n ∧ length lower = n
                  ∧ length upper = n ∧ length cumulative = n)
  then mret (mkDataFrame month year median lower upper cumulative)
  else raise ValueError.

(** One row of the table, under the names the design document uses. *)
Record ProjectionRecord : Type := mkRecord {
  month : Z;
  year : R;
  median : R;
  lower_p10 : R;
  upper_p90 : R;
  cumulative_contribution : R
}.

(** [df.iloc[k]] *)
Definition iloc (df : DataFrame) (k : nat) : option ProjectionRecord :=
  m ← Month df !! k;
  y ← Year df !! k;
  md ← Median_Projection df !! k;
  lo ← Lower_Bound_10 df !! k;
  up ← Upper_Bound_90 df !! k;
  cu ← Cumulative_Investment df !! k;
  Some (mkRecord m y md lo up cu).

(** [len(df)] *)
Definition nrows (df : DataFrame) : nat := length (Month df).

(** ** The risk table *)

Record RiskParameters : Type := mkRisk {
  mean_return : R;
  volatility : R
}.

Definition risk_parameters : gmap Z RiskParameters :=
  <[1%Z := mkRisk 0.04 0.05]>
  (<[2%Z := mkRisk 0.05 0.07]>
  (<[3%Z := mkRisk 0.06 0.09]>
  (<[4%Z := mkRisk 0.07 0.11]>
  (<[5%Z := mkRisk 0.08 0.14]>
  (<[6%Z := mkRisk 0.10 0.17]>
  (<[7%Z := mkRisk 0.12 0.20]>
  (<[8%Z := mkRisk 0.14 0.25]> ∅))))))).

(** [d[k]] on a dict: a missing key is a [KeyError]. *)
Definition dict_getitem {rng V} (d : gmap Z V) (k : Z) : py rng V :=
  match d !! k with
  | Some v => mret v
  | None => raise (KeyError k)
  end.

(** ** The engine *)

Definition num_simulations : Z := 1000.

(** Line 26: [(1 + annual_return) ** (1/12) - 1] *)
Definition monthly_return (annual_return : R) : R :=
  (Rpower (1 + annual_return) (1 / 12) - 1)%R.

(** Line 27: [annual_volatility / np.sqrt(12)] *)
Definition monthly_volatility (annual_volatility : R) : R :=
  (annual_volatility / sqrt 12)%R.

(** The trajectories in closed form, to compare the loops against. *)

(** A trajectory from its draws: growth first, contribution after. *)
Fixpoint path (contribution x : R) (rs : list R) : list R :=
  x :: match rs with
       | [] => []
       | r :: rs' => path contribution (x * (1 + r) + contribution)%R rs'
       end.

(** The invested amounts of a trajectory over [n] months. *)
Fixpoint contributions (contribution x : R) (n : nat) : list R :=
  x :: match n with
       | O => []
       | S n' => contributions contribution (x + contribution)%R n'
       end.

Section Engine.
Context {rng : Type}.

(** The sampler behind [np.random.normal(loc, scale)]: one draw from
    the generator state, and the state after it. *)
Variable np_random_normal : R → R → rng → R * rng.

(** The largest array, in bytes, the allocator grants. *)
Variable memory : Z.

(** [np.random.normal(loc, scale)]; numpy rejects a negative scale. *)
Definition random_normal (loc scale : R) : py rng R :=
  if decide (scale < 0)%R then raise ValueError
  else λ g, let (x, g') := np_random_normal loc scale g in (Returns x, g').

(** Lines 36-41, the body of the loop over the months of trajectory [i]. *)
Definition month_step (monthly_contribution mu sigma : R) (i j : Z)
    (s : ndarray * ndarray) : py rng (ndarray * ndarray) :=
  let '(simulations, cumulative_investment) := s in
  let monthly_investment := monthly_contribution in
  random_return ← random_normal mu sigma;
  previous ← getitem simulations i (j - 1);
  simulations ← setitem simulations i j
    (previous * (1 + random_return) + monthly_investment)%R;
  invested ← getitem cumulative_investment i (j - 1);
  cumulative_investment ← setitem cumulative_investment i j
    (invested + monthly_investment)%R;
  mret (simulations, cumulative_investment).

(** Lines 32-41, the body of the loop over the trajectories. *)
Definition trajectory_step (initial_amount monthly_contribution mu sigma : R)
    (months : Z) (i : Z) (s : ndarray * ndarray)
    : py rng (ndarray * ndarray) :=
  let '(simulations, cumulative_investment) := s in
  simulations ← setitem simulations i 0 initial_amount;
  cumulative_investment ← setitem cumulative_investment i 0 initial_amount;
  for_in (range 1 (months + 1))
    (month_step monthly_contribution mu sigma i)
    (simulations, cumulative_investment).

(** Lines 29-41: allocate both arrays and fill them. *)
Definition simulate (initial_amount monthly_contribution mu sigma : R)
    (months : Z) : py rng (ndarray * ndarray) :=
  simulations ← np_zeros memory num_simulations (months + 1);
  cumulative_investment ← np_zeros memory num_simulations (months + 1);
  for_in (range 0 num_simulations)
    (trajectory_step initial_amount monthly_contribution mu sigma months)
    (simulations, cumulative_investment).

(** Lines 43-57: percentile bands and the result table. *)
Definition aggregate (simulations cumulative_investment : ndarray)
    (months : Z) : py rng DataFrame :=
  let lower_bound := np_percentile simulations 10 in
  let median_projection := np_percentile simulations 50 in
  let upper_bound := np_percentile simulations 90 in
  let months_array := np_arange (months + 1) in
  first_row ← getrow cumulative_investment 0;
  pd_DataFrame months_array ((λ m, IZR m / 12)%R <$> months_array)
    median_projection lower_bound upper_bound first_row.

(** Lines 6-57. *)
Definition calculate_investment_projection
    (initial_amount monthly_contribution : R) (risk_appetite years : Z)
    : py rng DataFrame :=
  params ← dict_getitem risk_parameters risk_appetite;
  let months := (years * 12)%Z in
  let annual_return := mean_return params in
  let annual_volatility := volatility params in
  '(simulations, cumulative_investment) ←
    simulate initial_amount monthly_contribution
      (monthly_return annual_return) (monthly_volatility annual_volatility)
      months;
  aggregate simulations cumulative_investment months.

(** *** The draws, by position

    The generator is consumed in program order: trajectory by
    trajectory, month by month. *)

(** The generator state after [k] draws. *)
Fixpoint state_after (mu sigma : R) (g : rng) (k : nat) : rng :=
  match k with
  | O => g
  | S k' => state_after mu sigma (np_random_normal mu sigma g).2 k'
  end.

(** The next [n] draws. *)
Fixpoint draws (mu sigma : R) (g : rng) (n : nat) : list R :=
  match n with
  | O => []
  | S n' => (np_random_normal mu sigma g).1
            :: draws mu sigma (np_random_normal mu sigma g).2 n'
  end.

(** The [n] trajectories of [months] months over the draws from [g]. *)
Definition ensemble (initial_amount monthly_contribution mu sigma : R)
    (g : rng) (months n : nat) : ndarray :=
  (λ t, path monthly_contribution initial_amount
          (draws mu sigma (state_after mu sigma g (t * months)) months))
  <$> seq 0 n.

(** The table assembled from an ensemble of trajectories over
    [months] months: numpy's percentiles per month, the invested
    amounts in closed form. *)
Definition table_of (initial_amount monthly_contribution : R)
    (simulations : ndarray) (months : nat) : DataFrame :=
  let months_array := np_arange (Z.of_nat months + 1) in
  mkDataFrame months_array ((λ m, IZR m / 12)%R <$> months_array)
    (np_percentile simulations 50) (np_percentile simulations 10)
    (np_percentile simulations 90)
    (contributions monthly_contribution initial_amount months).

(** The draw made for month [m] (from 1) of trajectory [i] (from 0). *)
Definition random_return_at (mu sigma : R) (g : rng) (months i m : nat) : R :=
  (np_random_normal mu sigma (state_after mu sigma g (i * months + (m - 1)))).1.

End Engine.

(** ** Reference definitions

    A sampler to run the engine on, and the percentile as the design
    document words it, to compare numpy's computation against. *)

(** The sampler replays recorded standard normal variates, scaled and
    shifted as [np.random.normal] does, and yields the mean once the
    record is used up. *)
Definition replay (loc scale : R) (g : list R) : R * list R :=
  match g with
  | [] => (loc, [])
  | z :: g' => ((loc + scale * z)%R, g')
  end.

(** [v] interpolates linearly between the two order statistics of the
    sorted sample [s] adjacent to [rank]. *)
Definition interpolates (s : list R) (rank v : R) : Prop :=
  ∃ (k : nat) (g lo hi : R),
    rank = (INR k + g)%R ∧ (0 <= g < 1)%R ∧ s !! k = Some lo ∧
    ((g = 0%R ∧ hi = lo) ∨ s !! S k = Some hi) ∧
    v = (lo + g * (hi - lo))%R.

(** [v] is the [p]-th percentile of the sample [a]:
    rank [p/100 * (N - 1)] in the sorted sample. *)
Definition is_percentile (a : list R) (p v : R) : Prop :=
  ∃ s, s ≡ₚ a ∧ Sorted Rle s ∧
       interpolates s (p / 100 * (INR (length a) - 1))%R v.

(** ** The horizons the engine can allocate *)

(** The size in bytes of each of the two arrays of a run. *)
Definition array_bytes (years : Z) : Z :=
  (8 * num_simulations * (years * 12 + 1))%Z.

(** The horizon is not negative, and arrays of its size are within
    numpy's limit and granted by the allocator. *)
Definition horizon_fits (memory years : Z) : Prop :=
  (0 ≤ years)%Z
  ∧ (array_bytes years ≤ NPY_MAX_INTP)%Z
  ∧ (array_bytes years ≤ memory)%Z.

(** ** The figures under the chart

    Of [main] only lines 205-207 are modelled, as a function of the
    table [projection_results] that the engine call of lines 145-150
    returned: the last median, the last invested amount and their
    difference.  Everything else in [main] (page set-up, the image of
    line 102, the widgets, the chart, [st.metric]) is Streamlit and
    Plotly input and output and is not modelled; nothing below says
    that [main] reaches these lines.  [sidebar_values] are the bounds
    the four widgets are created with (lines 111-140). *)

(** [series.iloc[i]] on a column: out of bounds is an [IndexError]. *)
Definition series_iloc {rng} (series : list R) (i : Z) : py rng R :=
  match normalize_index (length series) i with
  | None => raise IndexError
  | Some i' =>
      match series !! i' with
      | None => raise IndexError
      | Some x => mret x
      end
  end.

(** What the widgets can return: [min_value] to [max_value] of each. *)
Definition sidebar_values
    (initial_amount monthly_contribution risk_appetite investment_horizon : Z)
    : Prop :=
  (500000 ≤ initial_amount ≤ 10000000)%Z
  ∧ (500 ≤ monthly_contribution ≤ 30000)%Z
  ∧ (1 ≤ risk_appetite ≤ 8)%Z
  ∧ (1 ≤ investment_horizon ≤ 20)%Z.

(** Lines 205-207: [final_median], [final_investment], [total_return]. *)
Definition final_figures {rng} (projection_results : DataFrame)
    : py rng (R * R * R) :=
  final_median ← series_iloc (Median_Projection projection_results) (-1);
  final_investment ←
    series_iloc (Cumulative_Investment projection_results) (-1);
  let total_return := (final_median - final_investment)%R in
  mret (final_median, final_investment, total_return).

(** [1 + q + ... + q^(m-1)], the weight of the contributions in a
    trajectory of constant growth factor [q]. *)
Fixpoint geometric_sum (q : R) (m : nat) : R :=
  match m with
  | O => 0%R
  | S m' => (1 + q * geometric_sum q m')%R
  end.

(** * Properties *)

(** ** Arrays and indices *)

Lemma normalize_index_nat (len i : nat) :
  i < len → normalize_index len (Z.of_nat i) = Some i.
Proof.
  intros Hi. unfold normalize_index.
  rewrite bool_decide_eq_true_2 by lia. by rewrite Nat2Z.id.
Qed.

Lemma getitem_at {rng} (a : ndarray) (i j : nat) (row : list R) (x : R) (g : rng) :
  a !! i = Some row → row !! j = Some x →
  getitem a (Z.of_nat i) (Z.of_nat j) g = (Returns x, g).
Proof.
  intros Hrow Hx. unfold getitem.
  rewrite normalize_index_nat by (by eapply lookup_lt_Some).
  rewrite Hrow.
  rewrite normalize_index_nat by (by eapply lookup_lt_Some).
  by rewrite Hx.
Qed.

Lemma setitem_at {rng} (a : ndarray) (i j : nat) (row : list R) (x : R) (g : rng) :
  a !! i = Some row → j < length row →
  setitem a (Z.of_nat i) (Z.of_nat j) x g
  = (Returns (<[i := <[j := x]> row]> a), g).
Proof.
  intros Hrow Hj. unfold setitem.
  rewrite normalize_index_nat by (by eapply lookup_lt_Some).
  rewrite Hrow. by rewrite normalize_index_nat.
Qed.

Lemma insert_middle {A} (l1 l2 : list A) (x y : A) (n : nat) :
  length l1 = n → <[n := y]> (l1 ++ x :: l2) = l1 ++ y :: l2.
Proof.
  intros <-. induction l1 as [|z l1 IH]; simpl; [done|by rewrite IH].
Qed.

Lemma bind_returns {rng A B} (m : py rng A) (k : A → py rng B) a g g' :
  m g = (Returns a, g') → (m ≫= k) g = k a g'.
Proof. intros Hm. unfold mbind, py_bind, bind. by rewrite Hm. Qed.

Lemma bind_raises {rng A B} (m : py rng A) (k : A → py rng B) e g g' :
  m g = (Raises e, g') → (m ≫= k) g = (Raises e, g').
Proof. intros Hm. unfold mbind, py_bind, bind. by rewrite Hm. Qed.

(** ** Allocation *)

Lemma np_zeros_returns {rng} (memory rows cols : Z) (g : rng) :
  (0 < rows)%Z → (0 < cols)%Z →
  (8 * rows * cols ≤ NPY_MAX_INTP)%Z → (8 * rows * cols ≤ memory)%Z →
  np_zeros memory rows cols g
  = (Returns (replicate (Z.to_nat rows) (replicate (Z.to_nat cols) 0%R)), g).
Proof.
  intros Hrows Hcols Hmax Hmem. unfold np_zeros, array_nbytes.
  rewrite (bool_decide_eq_false_2 (rows = 0)%Z) by lia.
  rewrite (bool_decide_eq_false_2 (rows < 0)%Z) by lia.
  rewrite (bool_decide_eq_false_2 (NPY_MAX_INTP < 8 * rows)%Z) by nia.
  rewrite (bool_decide_eq_false_2 (cols = 0)%Z) by lia.
  rewrite (bool_decide_eq_false_2 (cols < 0)%Z) by lia.
  rewrite (bool_decide_eq_false_2 (NPY_MAX_INTP < 8 * rows * cols)%Z) by lia.
  by rewrite bool_decide_eq_false_2 by lia.
Qed.

Lemma np_zeros_value_error {rng} (memory rows cols : Z) (g : rng) :
  (0 < rows)%Z →
  (cols < 0 ∨ NPY_MAX_INTP < 8 * rows * cols)%Z →
  np_zeros memory rows cols g = (Raises ValueError, g).
Proof.
  intros Hrows Hcols. unfold np_zeros, array_nbytes.
  rewrite (bool_decide_eq_false_2 (rows = 0)%Z) by lia.
  rewrite (bool_decide_eq_false_2 (rows < 0)%Z) by lia.
  case_bool_decide; [done|].
  rewrite (bool_decide_eq_false_2 (cols = 0)%Z) by nia.
  case_bool_decide; [done|].
  by rewrite bool_decide_eq_true_2 by lia.
Qed.

Lemma np_zeros_memory_error {rng} (memory rows cols : Z) (g : rng) :
  (0 < rows)%Z → (0 < cols)%Z →
  (8 * rows * cols ≤ NPY_MAX_INTP)%Z → (memory < 8 * rows * cols)%Z →
  np_zeros memory rows cols g = (Raises MemoryError, g).
Proof.
  intros Hrows Hcols Hmax Hmem. unfold np_zeros, array_nbytes.
  rewrite (bool_decide_eq_false_2 (rows = 0)%Z) by lia.
  rewrite (bool_decide_eq_false_2 (rows < 0)%Z) by lia.
  rewrite (bool_decide_eq_false_2 (NPY_MAX_INTP < 8 * rows)%Z) by nia.
  rewrite (bool_decide_eq_false_2 (cols = 0)%Z) by lia.
  rewrite (bool_decide_eq_false_2 (cols < 0)%Z) by lia.
  rewrite (bool_decide_eq_false_2 (NPY_MAX_INTP < 8 * rows * cols)%Z) by lia.
  by rewrite bool_decide_eq_true_2 by lia.
Qed.

(** ** The simulation loops *)

Section Simulation.
Context {rng : Type}.
Variable np_random_normal : R → R → rng → R * rng.
Variable memory : Z.
Variables (initial_amount monthly_contribution mu sigma : R).
Hypothesis sigma_nonneg : (0 <= sigma)%R.

Abbreviation after := (state_after np_random_normal mu sigma).
Abbreviation drawn := (draws np_random_normal mu sigma).
Abbreviation paths :=
  (ensemble np_random_normal initial_amount monthly_contribution mu sigma).

Lemma random_normal_draw g :
  random_normal np_random_normal mu sigma g
  = (Returns (np_random_normal mu sigma g).1, (np_random_normal mu sigma g).2).
Proof using sigma_nonneg.
  unfold random_normal. destruct (decide (sigma < 0)%R) as [Hneg|_]; [lra|].
  by destruct (np_random_normal mu sigma g).
Qed.

Lemma state_after_add g a b :
  after g (a + b) = after (after g a) b.
Proof. revert g. induction a as [|a IH]; intros g; simpl; [done|apply IH]. Qed.

Lemma length_draws g n : length (drawn g n) = n.
Proof. revert g. induction n as [|n IH]; intros g; simpl; [done|by rewrite IH]. Qed.

Lemma lookup_draws g n k :
  k < n → drawn g n !! k = Some (np_random_normal mu sigma (after g k)).1.
Proof.
  revert g k. induction n as [|n IH]; intros g k Hk; [lia|].
  destruct k as [|k]; simpl; [done|]. apply IH. lia.
Qed.

(** The loop over the months of trajectory [i], started with the row
    filled up to column [length pre]: it writes the rest of the
    trajectory into the row, and touches nothing else. *)
Lemma month_loop (len : nat) :
  ∀ (pre prec rest restc : list R) (x xc : R)
    (simulations cumulative_investment : ndarray) (i : nat) (g : rng),
    simulations !! i = Some (pre ++ x :: rest) →
    cumulative_investment !! i = Some (prec ++ xc :: restc) →
    length prec = length pre → length rest = len → length restc = len →
    for_in (seqZ (Z.of_nat (S (length pre))) (Z.of_nat len))
      (month_step np_random_normal monthly_contribution mu sigma (Z.of_nat i))
      (simulations, cumulative_investment) g
    = (Returns
         (<[i := pre ++ path monthly_contribution x (drawn g len)]> simulations,
          <[i := prec ++ contributions monthly_contribution xc len]>
            cumulative_investment),
       after g len).
Proof using sigma_nonneg.
  induction len as [|len IH];
    intros pre prec rest restc x xc sims cum i g Hs Hc Hpre Hrest Hrestc.
  - destruct rest; [|done]. destruct restc; [|done].
    rewrite seqZ_nil by lia. cbn [for_in path contributions draws state_after].
    rewrite !list_insert_id by done. done.
  - destruct rest as [|r0 rest]; [done|]. destruct restc as [|c0 restc]; [done|].
    rewrite seqZ_cons by lia. cbn [for_in].
    set (j := S (length pre)).
    set (r := (np_random_normal mu sigma g).1).
    set (g1 := (np_random_normal mu sigma g).2).
    set (v := (x * (1 + r) + monthly_contribution)%R).
    set (vc := (xc + monthly_contribution)%R).
    assert (Hstep : month_step np_random_normal monthly_contribution mu sigma
                      (Z.of_nat i) (Z.of_nat j) (sims, cum) g
                    = (Returns (<[i := (pre ++ [x]) ++ v :: rest]> sims,
                                <[i := (prec ++ [xc]) ++ vc :: restc]> cum), g1)).
    { unfold month_step.
      erewrite bind_returns by apply random_normal_draw.
      replace (Z.of_nat j - 1)%Z with (Z.of_nat (length pre)) by lia.
      erewrite bind_returns
        by (eapply getitem_at; [done|by apply list_lookup_middle]).
      erewrite bind_returns
        by (eapply setitem_at; [done|rewrite length_app; simpl; lia]).
      erewrite bind_returns
        by (eapply getitem_at; [done|by apply list_lookup_middle]).
      erewrite bind_returns
        by (eapply setitem_at; [done|rewrite length_app; simpl; lia]).
      unfold mret, py_ret, ret. do 3 f_equal.
      - f_equal. replace j with (length (pre ++ [x]))
          by (rewrite length_app; simpl; lia).
        replace (pre ++ x :: r0 :: rest) with ((pre ++ [x]) ++ r0 :: rest)
          by (by rewrite <- app_assoc).
        by rewrite insert_middle.
      - f_equal. replace j with (length (prec ++ [xc]))
          by (rewrite length_app; simpl; lia).
        replace (prec ++ xc :: c0 :: restc) with ((prec ++ [xc]) ++ c0 :: restc)
          by (by rewrite <- app_assoc).
        by rewrite insert_middle. }
    erewrite bind_returns by exact Hstep.
    replace (Z.succ (Z.of_nat j)) with (Z.of_nat (S (length (pre ++ [x]))))
      by (rewrite length_app; simpl; lia).
    replace (Z.pred (Z.of_nat (S len))) with (Z.of_nat len) by lia.
    rewrite (IH (pre ++ [x]) (prec ++ [xc]) rest restc v vc).
    + rewrite !list_insert_insert_eq. simpl.
      by rewrite <- !app_assoc.
    + apply list_lookup_insert_eq. by eapply lookup_lt_Some.
    + apply list_lookup_insert_eq. by eapply lookup_lt_Some.
    + rewrite !length_app. simpl. lia.
    + by injection Hrest.
    + by injection Hrestc.
Qed.

Lemma ensemble_S g months n :
  paths g months (S n)
  = path monthly_contribution initial_amount (drawn g months)
    :: paths (after g months) months n.
Proof.
  unfold ensemble. cbn [seq fmap list_fmap]. f_equal.
  rewrite <- fmap_S_seq, <- list_fmap_compose.
  apply list_fmap_ext. intros _ t _. cbn.
  by rewrite <- state_after_add.
Qed.

(** The loop over the trajectories, started with the first
    [length done] rows filled and [k] rows of zeros to go. *)
Lemma trajectory_loop (months k : nat) :
  ∀ (done_s done_c : ndarray) (g : rng),
    length done_c = length done_s →
    for_in (seqZ (Z.of_nat (length done_s)) (Z.of_nat k))
      (trajectory_step np_random_normal initial_amount monthly_contribution
         mu sigma (Z.of_nat months))
      (done_s ++ replicate k (replicate (S months) 0%R),
       done_c ++ replicate k (replicate (S months) 0%R)) g
    = (Returns
         (done_s ++ paths g months k,
          done_c ++ replicate k
                      (contributions monthly_contribution initial_amount months)),
       after g (k * months)).
Proof using sigma_nonneg.
  induction k as [|k IH]; intros done_s done_c g Hlen.
  - by rewrite seqZ_nil by lia.
  - rewrite seqZ_cons by lia. cbn [for_in replicate].
    set (zeros := replicate months 0%R).
    set (blank := replicate k (0%R :: zeros)).
    assert (Hstep :
      trajectory_step np_random_normal initial_amount monthly_contribution
        mu sigma (Z.of_nat months) (Z.of_nat (length done_s))
        (done_s ++ (0%R :: zeros) :: blank, done_c ++ (0%R :: zeros) :: blank) g
      = (Returns
           ((done_s ++ [path monthly_contribution initial_amount (drawn g months)])
              ++ blank,
            (done_c ++ [contributions monthly_contribution initial_amount months])
              ++ blank),
         after g months)).
    { unfold trajectory_step. change 0%Z with (Z.of_nat 0).
      erewrite bind_returns
        by (eapply setitem_at; [by apply list_lookup_middle|simpl; lia]).
      rewrite (insert_middle done_s) by done. cbn [insert list_insert].
      erewrite bind_returns
        by (eapply setitem_at; [by apply list_lookup_middle|simpl; lia]).
      rewrite (insert_middle done_c) by done. cbn [insert list_insert].
      unfold range.
      replace (Z.of_nat months + 1 - 1)%Z with (Z.of_nat months) by lia.
      rewrite (month_loop months [] [] zeros zeros initial_amount initial_amount).
      - rewrite (insert_middle done_s), (insert_middle done_c) by done.
        cbn [app]. by rewrite <- !app_assoc.
      - by apply list_lookup_middle.
      - by apply list_lookup_middle.
      - done.
      - apply length_replicate.
      - apply length_replicate. }
    erewrite bind_returns by exact Hstep.
    replace (Z.succ (Z.of_nat (length done_s)))
      with (Z.of_nat (length (done_s ++
              [path monthly_contribution initial_amount (drawn g months)])))
      by (rewrite length_app; simpl; lia).
    replace (Z.pred (Z.of_nat (S k))) with (Z.of_nat k) by lia.
    rewrite IH by (rewrite !length_app; simpl; lia).
    rewrite ensemble_S, <- !app_assoc. cbn [app].
    by rewrite <- state_after_add.
Qed.

(** Lines 29-41 when both arrays can be allocated: every index is in
    range, and the result is the ensemble of trajectories over the
    draws in program order. *)
Lemma simulate_returns (months : Z) (g : rng) :
  (0 ≤ months)%Z →
  (8 * num_simulations * (months + 1) ≤ NPY_MAX_INTP)%Z →
  (8 * num_simulations * (months + 1) ≤ memory)%Z →
  simulate np_random_normal memory
    initial_amount monthly_contribution mu sigma months g
  = (Returns
       (paths g (Z.to_nat months) (Z.to_nat num_simulations),
        replicate (Z.to_nat num_simulations)
          (contributions monthly_contribution initial_amount (Z.to_nat months))),
     after g (Z.to_nat num_simulations * Z.to_nat months)).
Proof using sigma_nonneg.
  intros Hm Hmax Hmem. unfold simulate.
  assert (HN : (0 < num_simulations)%Z) by done.
  erewrite bind_returns by (apply np_zeros_returns; lia).
  erewrite bind_returns by (apply np_zeros_returns; lia).
  unfold range. rewrite Z.sub_0_r.
  replace (Z.to_nat (months + 1)) with (S (Z.to_nat months)) by lia.
  clear Hmax Hmem.
  generalize dependent num_simulations. intros N HN.
  rewrite <- (Z2Nat.id N) at 1 by lia.
  rewrite <- (Z2Nat.id months) at 1 by done.
  by rewrite (trajectory_loop (Z.to_nat months) (Z.to_nat N) [] []).
Qed.

(** A shape numpy refuses stops at the allocation, before any draw. *)
Lemma simulate_value_error (months : Z) (g : rng) :
  (months + 1 < 0 ∨ NPY_MAX_INTP < 8 * num_simulations * (months + 1))%Z →
  simulate np_random_normal memory
    initial_amount monthly_contribution mu sigma months g
  = (Raises ValueError, g).
Proof.
  intros Hm. unfold simulate.
  erewrite bind_raises; [done|]. by apply np_zeros_value_error.
Qed.

(** So does a size the allocator does not grant. *)
Lemma simulate_memory_error (months : Z) (g : rng) :
  (0 ≤ months)%Z →
  (8 * num_simulations * (months + 1) ≤ NPY_MAX_INTP)%Z →
  (memory < 8 * num_simulations * (months + 1))%Z →
  simulate np_random_normal memory
    initial_amount monthly_contribution mu sigma months g
  = (Raises MemoryError, g).
Proof.
  intros Hm Hmax Hmem. unfold simulate.
  erewrite bind_raises; [done|]. apply np_zeros_memory_error; (done || lia).
Qed.

End Simulation.

(** ** Percentiles *)

#[global] Instance Rle_total_rel : Total Rle.
Proof. intros x y. destruct (Rle_lt_dec x y); [left|right]; lra. Qed.

#[global] Instance Rle_trans_rel : Transitive Rle.
Proof. intros x y z. apply Rle_trans. Qed.

Lemma np_sort_sorted (a : list R) : StronglySorted Rle (np_sort a).
Proof. apply StronglySorted_merge_sort; apply _. Qed.

Lemma np_sort_perm (a : list R) : np_sort a ≡ₚ a.
Proof. apply merge_sort_Permutation. Qed.

Lemma length_np_sort (a : list R) : length (np_sort a) = length a.
Proof. apply Permutation_length, np_sort_perm. Qed.

(** In a sorted sample the order statistics increase with the index. *)
Lemma sorted_lookup_le (s : list R) (i j : nat) (x y : R) :
  StronglySorted Rle s → i ≤ j → s !! i = Some x → s !! j = Some y → (x <= y)%R.
Proof.
  intros Hs. revert i j. induction Hs as [|z s Hs IH Hall]; intros i j Hij Hx Hy.
  - done.
  - destruct i as [|i], j as [|j]; simpl in *.
    + simplify_eq. lra.
    + simplify_eq. rewrite Forall_forall in Hall.
      apply Hall. apply list_elem_of_lookup. eauto.
    + lia.
    + apply (IH i j); [lia|done..].
Qed.

Lemma Int_part_unique (r : R) (z : Z) :
  (IZR z <= r)%R → (r < IZR z + 1)%R → Int_part r = z.
Proof.
  intros Hlo Hhi. unfold Int_part.
  rewrite <- (up_tech r z) by (rewrite ?plus_IZR; lra). lia.
Qed.

Lemma lerp_linear (a b t : R) : lerp a b t = (a + t * (b - a))%R.
Proof. unfold lerp. destruct (decide (t < 0.5)%R); ring. Qed.

(** The interpolated value lies between its two neighbours. *)
Lemma interpolates_mono (s : list R) (r1 r2 v1 v2 : R) :
  StronglySorted Rle s →
  interpolates s r1 v1 → interpolates s r2 v2 → (r1 <= r2)%R → (v1 <= v2)%R.
Proof.
  intros Hs (k1 & g1 & lo1 & hi1 & -> & Hg1 & Hlo1 & Hhi1 & ->)
            (k2 & g2 & lo2 & hi2 & -> & Hg2 & Hlo2 & Hhi2 & ->) Hr.
  assert (Hup1 : (lo1 <= hi1)%R).
  { destruct Hhi1 as [[_ ->]|Hhi1]; [lra|].
    apply (sorted_lookup_le s k1 (S k1)); auto with lia. }
  assert (Hup2 : (lo2 <= hi2)%R).
  { destruct Hhi2 as [[_ ->]|Hhi2]; [lra|].
    apply (sorted_lookup_le s k2 (S k2)); auto with lia. }
  destruct (decide (k1 = k2)) as [->|Hne].
  - simplify_eq.
    destruct Hhi1 as [[-> ->]|Hhi1]; [nra|].
    destruct Hhi2 as [[-> ->]|Hhi2]; [nra|].
    simplify_eq. nra.
  - assert (k1 < k2) as Hlt.
    { destruct (decide (k1 < k2)); [done|].
      assert (S k2 ≤ k1) as Hgt by lia.
      apply le_INR in Hgt. rewrite S_INR in Hgt. lra. }
    assert (Hmid : (lo1 + g1 * (hi1 - lo1) <= lo2)%R).
    { destruct Hhi1 as [[-> ->]|Hhi1].
      - ring_simplify. apply (sorted_lookup_le s k1 k2); auto with lia.
      - assert (hi1 <= lo2)%R
          by (apply (sorted_lookup_le s (S k1) k2); auto with lia).
        nra. }
    nra.
Qed.

(** On a constant sample every interpolated value is that constant. *)
Lemma interpolates_const (s : list R) (c rank v : R) :
  Forall (eq c) s → interpolates s rank v → v = c.
Proof.
  rewrite Forall_lookup. intros Hall (k & g & lo & hi & _ & _ & Hlo & Hhi & ->).
  pose proof (Hall _ _ Hlo) as <-.
  destruct Hhi as [[_ ->]|Hhi]; [ring|].
  pose proof (Hall _ _ Hhi) as <-. ring.
Qed.

(** numpy's computation finds the interpolation the reference asks for. *)
Lemma percentile_1d_interpolates (a : list R) (q : R) :
  a ≠ [] → (0 <= q <= 100)%R →
  interpolates (np_sort a) (q / 100 * (INR (length a) - 1)) (percentile_1d a q).
Proof.
  intros Ha Hq. unfold percentile_1d.
  rewrite length_np_sort.
  set (n := length a).
  assert (Hn : 0 < n) by (unfold n; destruct a; [done|simpl; lia]).
  set (v := ((INR n - 1) * (q / 100))%R).
  assert (Hn1 : (1 <= INR n)%R) by (apply (le_INR 1); lia).
  assert (Hv : (0 <= v <= INR n - 1)%R) by (unfold v; split; nra).
  destruct (base_Int_part v) as [Hfl1 Hfl2].
  set (fl := Int_part v) in *.
  assert (Hfl0 : (0 ≤ fl)%Z).
  { assert (-1 < fl)%Z; [apply lt_IZR; lra|lia]. }
  assert (Hfln : (fl ≤ Z.of_nat n - 1)%Z).
  { apply le_IZR. rewrite minus_IZR, <- INR_IZR_INZ. lra. }
  set (k := Z.to_nat fl).
  assert (Hk : INR k = IZR fl) by (unfold k; rewrite INR_IZR_INZ; f_equal; lia).
  assert (Hkn : k < n) by lia.
  destruct (lookup_lt_is_Some_2 (np_sort a) k) as [lo Hlo];
    [rewrite length_np_sort; lia|].
  rewrite Hlo. cbn [default from_option id].
  destruct (decide (k + 1 ≤ n - 1)) as [Hin|Hout].
  - rewrite Nat.min_l by done.
    destruct (lookup_lt_is_Some_2 (np_sort a) (k + 1)) as [hi Hhi];
      [rewrite length_np_sort; lia|].
    rewrite Hhi. cbn [default from_option id].
    exists k, (v - IZR fl)%R, lo, hi. rewrite lerp_linear.
    split_and!; [unfold v; lra|lra|lra|done| |done].
    right. by rewrite <- Nat.add_1_r.
  - rewrite Nat.min_r by lia.
    replace (n - 1) with k by lia. rewrite Hlo. cbn [default from_option id].
    assert (Hkv : (INR n - 1 <= IZR fl)%R).
    { rewrite <- Hk. replace n with (S k) by lia. rewrite S_INR. lra. }
    exists k, 0%R, lo, lo. rewrite lerp_linear.
    split_and!; [unfold v in *; lra|lra|lra|done|by left|].
    replace (v - IZR fl)%R with 0%R by lra. done.
Qed.

Lemma percentile_1d_is_percentile (a : list R) (q : R) :
  a ≠ [] → (0 <= q <= 100)%R → is_percentile a q (percentile_1d a q).
Proof.
  intros Ha Hq. exists (np_sort a). split; [apply np_sort_perm|].
  split; [apply StronglySorted_Sorted, np_sort_sorted|].
  by apply percentile_1d_interpolates.
Qed.

(** Percentiles of one sample are ordered like their ranks. *)
Lemma percentile_1d_mono (a : list R) (p q : R) :
  a ≠ [] → (0 <= p)%R → (p <= q)%R → (q <= 100)%R →
  (percentile_1d a p <= percentile_1d a q)%R.
Proof.
  intros Ha Hp Hpq Hq.
  eapply (interpolates_mono (np_sort a)).
  - apply np_sort_sorted.
  - apply percentile_1d_interpolates; [done|lra].
  - apply percentile_1d_interpolates; [done|lra].
  - assert (1 <= INR (length a))%R.
    { apply (le_INR 1). destruct a; [done|simpl; lia]. }
    nra.
Qed.

Lemma percentile_1d_const (a : list R) (c q : R) :
  a ≠ [] → Forall (eq c) a → (0 <= q <= 100)%R → percentile_1d a q = c.
Proof.
  intros Ha Hall Hq.
  eapply (interpolates_const (np_sort a) c);
    [|by apply percentile_1d_interpolates].
  by rewrite np_sort_perm.
Qed.

#[global] Instance Rle_antisymm_rel : AntiSymm (=) Rle.
Proof. intros x y. apply Rle_antisym. Qed.

(** The reference percentile is a function of the sample. *)
Lemma is_percentile_unique (a : list R) (p v1 v2 : R) :
  is_percentile a p v1 → is_percentile a p v2 → v1 = v2.
Proof.
  intros (s1 & Hp1 & Hs1 & Hv1) (s2 & Hp2 & Hs2 & Hv2).
  apply Sorted_StronglySorted in Hs1; [|apply _].
  apply Sorted_StronglySorted in Hs2; [|apply _].
  assert (s1 = s2) as <-
    by (apply (StronglySorted_unique Rle); [done..|by rewrite Hp1, Hp2]).
  apply Rle_antisym; eapply (interpolates_mono s1); eauto; lra.
Qed.

(** ** Trajectories in closed form *)

Lemma length_path (c x : R) (rs : list R) : length (path c x rs) = S (length rs).
Proof. revert x. induction rs as [|r rs IH]; intros x; simpl; [done|by rewrite IH]. Qed.

Lemma lookup_path_0 (c x : R) (rs : list R) : path c x rs !! 0 = Some x.
Proof. by destruct rs. Qed.

(** One month on: growth by the month's draw, then the contribution. *)
Lemma lookup_path_S (c x : R) (rs : list R) (k : nat) (r v : R) :
  rs !! k = Some r → path c x rs !! k = Some v →
  path c x rs !! S k = Some (v * (1 + r) + c)%R.
Proof.
  revert x k. induction rs as [|r0 rs IH]; intros x k Hr Hv; [done|].
  destruct k as [|k].
  - simpl in *. simplify_eq. apply lookup_path_0.
  - change (path c x (r0 :: rs) !! S (S k))
      with (path c (x * (1 + r0) + c) rs !! S k).
    apply IH; [done|]. exact Hv.
Qed.

Lemma length_contributions (c x : R) (n : nat) :
  length (contributions c x n) = S n.
Proof. revert x. induction n as [|n IH]; intros x; simpl; [done|by rewrite IH]. Qed.

Lemma lookup_contributions (c x : R) (n m : nat) :
  m ≤ n → contributions c x n !! m = Some (x + INR m * c)%R.
Proof.
  revert x m. induction n as [|n IH]; intros x m Hm.
  - replace m with 0 by lia. simpl. f_equal. ring.
  - destruct m as [|m]; [simpl; f_equal; ring|].
    change (contributions c x (S n) !! S m)
      with (contributions c (x + c) n !! m).
    rewrite IH by lia. f_equal. rewrite S_INR. ring.
Qed.

Lemma length_column (a : ndarray) (j : nat) : length (column a j) = length a.
Proof. apply length_fmap. Qed.

Lemma column_nonempty (a : ndarray) (j : nat) :
  0 < length a → column a j ≠ [].
Proof.
  intros Ha Hnil. apply (f_equal length) in Hnil.
  rewrite length_column in Hnil. simpl in Hnil. lia.
Qed.

Lemma length_np_percentile (a : ndarray) (q : R) :
  length (np_percentile a q) = ncols a.
Proof. unfold np_percentile. by rewrite length_fmap, length_seq. Qed.

Lemma lookup_np_percentile (a : ndarray) (q : R) (j : nat) :
  j < ncols a → np_percentile a q !! j = Some (percentile_1d (column a j) q).
Proof.
  intros Hj. unfold np_percentile.
  by rewrite list_lookup_fmap, lookup_seq_lt.
Qed.

Section Ensemble.
Context {rng : Type}.
Variable np_random_normal : R → R → rng → R * rng.
Variables (initial_amount monthly_contribution mu sigma : R).

Abbreviation trajectories :=
  (ensemble np_random_normal initial_amount monthly_contribution mu sigma).

Lemma length_ensemble g months n : length (trajectories g months n) = n.
Proof. unfold ensemble. by rewrite length_fmap, length_seq. Qed.

Lemma lookup_ensemble g months n i :
  i < n →
  trajectories g months n !! i
  = Some (path monthly_contribution initial_amount
            (draws np_random_normal mu sigma
               (state_after np_random_normal mu sigma g (i * months)) months)).
Proof.
  intros Hi. unfold ensemble. by rewrite list_lookup_fmap, lookup_seq_lt.
Qed.

Lemma ncols_ensemble g months n : 0 < n → ncols (trajectories g months n) = S months.
Proof.
  intros Hn. unfold ncols.
  rewrite head_lookup, lookup_ensemble by done. simpl.
  by rewrite length_path, length_draws.
Qed.

(** Month 0 of every trajectory is the initial amount. *)
Lemma column_0_ensemble g months n :
  Forall (eq initial_amount) (column (trajectories g months n) 0).
Proof.
  unfold column, ensemble. rewrite <- list_fmap_compose.
  apply Forall_fmap, Forall_forall. intros t _. simpl.
  by rewrite lookup_path_0.
Qed.

End Ensemble.

(** ** The risk table *)

Lemma risk_parameters_lookup (risk_appetite : Z) :
  risk_parameters !! risk_appetite
  = if bool_decide (risk_appetite = 1)%Z then Some (mkRisk 0.04 0.05)
    else if bool_decide (risk_appetite = 2)%Z then Some (mkRisk 0.05 0.07)
    else if bool_decide (risk_appetite = 3)%Z then Some (mkRisk 0.06 0.09)
    else if bool_decide (risk_appetite = 4)%Z then Some (mkRisk 0.07 0.11)
    else if bool_decide (risk_appetite = 5)%Z then Some (mkRisk 0.08 0.14)
    else if bool_decide (risk_appetite = 6)%Z then Some (mkRisk 0.10 0.17)
    else if bool_decide (risk_appetite = 7)%Z then Some (mkRisk 0.12 0.20)
    else if bool_decide (risk_appetite = 8)%Z then Some (mkRisk 0.14 0.25)
    else None.
Proof.
  unfold risk_parameters.
  repeat (case_bool_decide;
          [subst; by simplify_map_eq|rewrite lookup_insert_ne by congruence]).
  apply lookup_empty.
Qed.

Lemma risk_parameters_valid (risk_appetite : Z) :
  (1 ≤ risk_appetite ≤ 8)%Z →
  ∃ params, risk_parameters !! risk_appetite = Some params
            ∧ (0 < mean_return params)%R ∧ (0 < volatility params)%R.
Proof.
  intros Hr. rewrite risk_parameters_lookup.
  repeat (case_bool_decide; [eexists; split; [done|simpl; lra]|]). lia.
Qed.

Lemma risk_parameters_invalid (risk_appetite : Z) :
  ¬ (1 ≤ risk_appetite ≤ 8)%Z → risk_parameters !! risk_appetite = None.
Proof.
  intros Hr. rewrite risk_parameters_lookup.
  repeat (case_bool_decide; [lia|]). done.
Qed.

Lemma sqrt_12_pos : (0 < sqrt 12)%R.
Proof. apply sqrt_lt_R0. lra. Qed.

Lemma monthly_volatility_nonneg (annual_volatility : R) :
  (0 <= annual_volatility)%R → (0 <= monthly_volatility annual_volatility)%R.
Proof.
  intros Hv. unfold monthly_volatility.
  apply Rmult_le_pos; [done|]. left. apply Rinv_0_lt_compat, sqrt_12_pos.
Qed.

(** ** The engine, end to end *)

Section Projection.
Context {rng : Type}.
Variable np_random_normal : R → R → rng → R * rng.
Variable memory : Z.

Lemma num_simulations_pos : 0 < Z.to_nat num_simulations.
Proof. unfold num_simulations. lia. Qed.

(** Lines 43-57 on arrays of the shape the loops leave behind. *)
Lemma aggregate_returns (simulations cumulative_investment : ndarray)
    (first_row : list R) (months : nat) (g : rng) :
  ncols simulations = S months →
  cumulative_investment !! 0 = Some first_row →
  length first_row = S months →
  aggregate simulations cumulative_investment (Z.of_nat months) g
  = (Returns
       (mkDataFrame (np_arange (Z.of_nat months + 1))
          ((λ m, IZR m / 12)%R <$> np_arange (Z.of_nat months + 1))
          (np_percentile simulations 50) (np_percentile simulations 10)
          (np_percentile simulations 90) first_row),
     g).
Proof.
  intros Hcols Hrow Hlen. unfold aggregate, getrow.
  change 0%Z with (Z.of_nat 0).
  rewrite normalize_index_nat by (by eapply lookup_lt_Some).
  rewrite Hrow. erewrite bind_returns by reflexivity.
  unfold pd_DataFrame. rewrite bool_decide_eq_true_2; [done|].
  rewrite length_fmap, !length_np_percentile, Hcols, Hlen.
  unfold np_arange. rewrite length_seqZ. lia.
Qed.

Lemma horizon_fits_nonneg (years : Z) : horizon_fits memory years → (0 ≤ years)%Z.
Proof. by intros (Hy & _). Qed.

(** With a risk level of the table and a horizon whose arrays can be
    allocated the engine returns, having drawn once per trajectory and
    month, the table of the ensemble over those draws. *)
Lemma projection_returns (initial_amount monthly_contribution : R)
    (risk_appetite years : Z) (params : RiskParameters) (g : rng) :
  risk_parameters !! risk_appetite = Some params →
  (0 <= volatility params)%R →
  horizon_fits memory years →
  let mu := monthly_return (mean_return params) in
  let sigma := monthly_volatility (volatility params) in
  let months := Z.to_nat (years * 12) in
  let n := Z.to_nat num_simulations in
  calculate_investment_projection np_random_normal memory
    initial_amount monthly_contribution risk_appetite years g
  = (Returns
       (table_of initial_amount monthly_contribution
          (ensemble np_random_normal initial_amount monthly_contribution
             mu sigma g months n) months),
     state_after np_random_normal mu sigma g (n * months)).
Proof.
  intros Hp Hvol (Hy & Hmax & Hmem) mu sigma months n.
  unfold array_bytes in Hmax, Hmem.
  unfold calculate_investment_projection, dict_getitem. rewrite Hp.
  erewrite bind_returns by reflexivity.
  erewrite bind_returns
    by (apply simulate_returns;
        [by apply monthly_volatility_nonneg|lia|done|done]).
  fold mu sigma months n. cbv beta iota.
  replace (years * 12)%Z with (Z.of_nat months) by lia.
  rewrite (aggregate_returns _ _
             (contributions monthly_contribution initial_amount months)).
  - done.
  - apply ncols_ensemble, num_simulations_pos.
  - apply lookup_replicate_2, num_simulations_pos.
  - apply length_contributions.
Qed.

(** A risk level outside the table stops at the lookup. *)
Lemma projection_key_error (initial_amount monthly_contribution : R)
    (risk_appetite years : Z) (g : rng) :
  risk_parameters !! risk_appetite = None →
  calculate_investment_projection np_random_normal memory
    initial_amount monthly_contribution risk_appetite years g
  = (Raises (KeyError risk_appetite), g).
Proof.
  intros Hp. unfold calculate_investment_projection, dict_getitem.
  by rewrite Hp.
Qed.

(** A negative horizon, or one beyond numpy's size limit, stops at the
    allocation of the arrays. *)
Lemma projection_value_error (initial_amount monthly_contribution : R)
    (risk_appetite years : Z) (params : RiskParameters) (g : rng) :
  risk_parameters !! risk_appetite = Some params →
  (years < 0 ∨ NPY_MAX_INTP < array_bytes years)%Z →
  calculate_investment_projection np_random_normal memory
    initial_amount monthly_contribution risk_appetite years g
  = (Raises ValueError, g).
Proof.
  intros Hp Hy. unfold calculate_investment_projection, dict_getitem.
  rewrite Hp. erewrite bind_returns by reflexivity.
  erewrite bind_raises; [done|]. apply simulate_value_error.
  unfold array_bytes in Hy. lia.
Qed.

(** So does a horizon beyond what the allocator grants. *)
Lemma projection_memory_error (initial_amount monthly_contribution : R)
    (risk_appetite years : Z) (params : RiskParameters) (g : rng) :
  risk_parameters !! risk_appetite = Some params →
  (0 ≤ years)%Z →
  (array_bytes years ≤ NPY_MAX_INTP)%Z →
  (memory < array_bytes years)%Z →
  calculate_investment_projection np_random_normal memory
    initial_amount monthly_contribution risk_appetite years g
  = (Raises MemoryError, g).
Proof.
  intros Hp Hy Hmax Hmem. unfold calculate_investment_projection, dict_getitem.
  rewrite Hp. erewrite bind_returns by reflexivity.
  erewrite bind_raises; [done|]. unfold array_bytes in Hmax, Hmem.
  apply simulate_memory_error; (done || lia).
Qed.

End Projection.

(** Lines 29-41 for a horizon whose arrays can be allocated. *)
Lemma simulate_fits {rng} (np_random_normal : R → R → rng → R * rng)
    (memory : Z) (initial_amount monthly_contribution mu sigma : R)
    (years : Z) (g : rng) :
  (0 <= sigma)%R →
  horizon_fits memory years →
  simulate np_random_normal memory
    initial_amount monthly_contribution mu sigma (years * 12) g
  = (Returns
       (ensemble np_random_normal initial_amount monthly_contribution
          mu sigma g (Z.to_nat (years * 12)) (Z.to_nat num_simulations),
        replicate (Z.to_nat num_simulations)
          (contributions monthly_contribution initial_amount
             (Z.to_nat (years * 12)))),
     state_after np_random_normal mu sigma g
       (Z.to_nat num_simulations * Z.to_nat (years * 12))).
Proof.
  intros Hsigma (Hy & Hmax & Hmem). unfold array_bytes in Hmax, Hmem.
  apply simulate_returns; [done|lia|done|done].
Qed.

(** ** The rows of the result table *)

Lemma nrows_table_of (initial_amount monthly_contribution : R)
    (simulations : ndarray) (months : nat) :
  nrows (table_of initial_amount monthly_contribution simulations months)
  = S months.
Proof. unfold nrows, table_of, np_arange. cbn. rewrite length_seqZ. lia. Qed.

Lemma iloc_table_of (initial_amount monthly_contribution : R)
    (simulations : ndarray) (months k : nat) :
  ncols simulations = S months → k ≤ months →
  iloc (table_of initial_amount monthly_contribution simulations months) k
  = Some (mkRecord (Z.of_nat k) (IZR (Z.of_nat k) / 12)
            (percentile_1d (column simulations k) 50)
            (percentile_1d (column simulations k) 10)
            (percentile_1d (column simulations k) 90)
            (initial_amount + INR k * monthly_contribution)).
Proof.
  intros Hcols Hk. unfold iloc, table_of, np_arange. cbn.
  rewrite list_lookup_fmap, lookup_seqZ_lt by lia. cbn.
  rewrite !lookup_np_percentile by lia. cbn.
  by rewrite lookup_contributions by done.
Qed.

Lemma iloc_table_of_None (initial_amount monthly_contribution : R)
    (simulations : ndarray) (months k : nat) :
  months < k →
  iloc (table_of initial_amount monthly_contribution simulations months) k = None.
Proof.
  intros Hk. unfold iloc, table_of, np_arange. cbn.
  by rewrite lookup_seqZ_ge by lia.
Qed.

(** A concrete horizon against a concrete memory. *)
Ltac horizon_fits_by_computation :=
  unfold horizon_fits, array_bytes, num_simulations, NPY_MAX_INTP; lia.

(** ** The model on small inputs *)

(** numpy gives [np.percentile([2, 1, 4, 3], [10, 50, 90])] as
    [1.3, 2.5, 3.7]. *)
Example percentile_of_four :
  percentile_1d [2; 1; 4; 3]%R 10 = 1.3%R
  ∧ percentile_1d [2; 1; 4; 3]%R 50 = 2.5%R
  ∧ percentile_1d [2; 1; 4; 3]%R 90 = 3.7%R.
Proof.
  assert ([1; 2; 3; 4]%R ≡ₚ [2; 1; 4; 3]%R) as Hperm.
  { etransitivity; [apply perm_swap|]. do 2 apply perm_skip. apply perm_swap. }
  assert (Sorted Rle [1; 2; 3; 4]%R) as Hsorted
    by (repeat constructor; lra).
  assert (INR (length [2; 1; 4; 3]%R) = 4%R) as Hlen by (simpl; lra).
  split_and!; eapply is_percentile_unique;
    try (apply percentile_1d_is_percentile; [done|lra]);
    exists [1; 2; 3; 4]%R; (split; [done|split; [done|]]); rewrite Hlen.
  - exists 0, 0.3%R, 1%R, 2%R. split_and!; try (simpl; lra); [done|by right].
  - exists 1, 0.5%R, 2%R, 3%R. split_and!; try (simpl; lra); [done|by right].
  - exists 2, 0.7%R, 3%R, 4%R. split_and!; try (simpl; lra); [done|by right].
Qed.

(** Two months from 1,000,000 with 5,000 a month and returns of +1%
    and -2%: the contribution follows the growth, it is not grown in
    the month it is paid. *)
Example path_of_two_months :
  path 5000 1000000 [0.01; -0.02]%R = [1000000; 1015000; 999700]%R
  ∧ contributions 5000 1000000 2 = [1000000; 1005000; 1010000]%R.
Proof. split; simpl; repeat (f_equal; try lra). Qed.

(** Indices the way numpy reads them. *)
Example normalize_index_cases :
  normalize_index 3 2 = Some 2 ∧ normalize_index 3 (-1) = Some 2
  ∧ normalize_index 3 3 = None ∧ normalize_index 3 (-4) = None.
Proof. done. Qed.

Lemma state_after_replay_nil (mu sigma : R) (k : nat) :
  state_after replay mu sigma [] k = [].
Proof. induction k as [|k IH]; [done|exact IH]. Qed.

(** * The claims of the design document

    Where a theorem below says that the engine returns, the horizon is
    one whose two arrays can be allocated, [horizon_fits memory years]:
    not negative, within numpy's size limit and granted by the
    allocator. *)

(** ** C1: parameter validation *)

(** C1, as stated, fails on the code.  A zero horizon and negative
    amounts are accepted: with risk level 4 (and 16 GiB the allocator
    grants), a horizon of 0 years returns a table of one record, and an
    initial amount of -1000000 with a monthly contribution of -5000
    over 1 year returns a table of 13 records. *)
Lemma invalid_parameters_accepted :
  (∃ df, calculate_investment_projection replay 17179869184
           1000000 5000 4 0 []
         = (Returns df, []) ∧ nrows df = 1)
  ∧ (∃ df, calculate_investment_projection replay 17179869184
             (-1000000) (-5000) 4 1 []
           = (Returns df, []) ∧ nrows df = 13).
Proof.
  split.
  - eexists. split.
    + rewrite (projection_returns replay _ _ _ 4 0 (mkRisk 0.07 0.11));
        [|by rewrite risk_parameters_lookup|simpl; lra
         |horizon_fits_by_computation].
      by rewrite state_after_replay_nil.
    + by rewrite nrows_table_of.
  - eexists. split.
    + rewrite (projection_returns replay _ _ _ 4 1 (mkRisk 0.07 0.11));
        [|by rewrite risk_parameters_lookup|simpl; lra
         |horizon_fits_by_computation].
      by rewrite state_after_replay_nil.
    + by rewrite nrows_table_of.
Qed.

(** C1, amended.  The engine validates none of the horizon, the initial
    amount and the monthly contribution; what stops a run is the
    allocation of the two arrays.  With a risk level of the table,
    whatever the amounts: a horizon of zero or more years whose arrays
    ([8 * 1000 * (years * 12 + 1)] bytes each) are within numpy's size
    limit and granted by the allocator returns a table of
    [years * 12 + 1] records; a negative horizon, or one whose arrays
    exceed numpy's size limit, raises [ValueError]; one within that
    limit that the allocator does not grant raises [MemoryError].  Both
    are raised at [np.zeros], before any draw (the generator state is
    unchanged), and nothing is returned. *)
Theorem no_parameter_validation {rng}
    (np_random_normal : R → R → rng → R * rng) (memory : Z)
    (initial_amount monthly_contribution : R) (risk_appetite years : Z) (g : rng) :
  (1 ≤ risk_appetite ≤ 8)%Z →
  (horizon_fits memory years →
     ∃ df g', calculate_investment_projection np_random_normal memory
                initial_amount monthly_contribution risk_appetite years g
              = (Returns df, g')
              ∧ nrows df = Z.to_nat (years * 12 + 1))
  ∧ ((years < 0 ∨ NPY_MAX_INTP < array_bytes years)%Z →
       calculate_investment_projection np_random_normal memory
         initial_amount monthly_contribution risk_appetite years g
       = (Raises ValueError, g))
  ∧ ((0 ≤ years)%Z → (array_bytes years ≤ NPY_MAX_INTP)%Z →
     (memory < array_bytes years)%Z →
       calculate_investment_projection np_random_normal memory
         initial_amount monthly_contribution risk_appetite years g
       = (Raises MemoryError, g)).
Proof.
  intros Hr. destruct (risk_parameters_valid _ Hr) as (params & Hp & _ & Hvol).
  split_and!.
  - intros Hy. do 2 eexists. split.
    + apply (projection_returns _ _ _ _ _ _ params); [done|lra|done].
    + rewrite nrows_table_of. apply horizon_fits_nonneg in Hy. lia.
  - intros Hy. by apply (projection_value_error _ _ _ _ _ _ params).
  - intros Hy Hmax Hmem. by apply (projection_memory_error _ _ _ _ _ _ params).
Qed.

Lemma no_parameter_validation_witness :
  (∃ df g', calculate_investment_projection replay 17179869184
              (-1) (-1) 4 0 [0.5%R]
            = (Returns df, g')
            ∧ nrows df = Z.to_nat (0 * 12 + 1))
  ∧ calculate_investment_projection replay 17179869184
      1000000 5000 4 (-1) [0.5%R]
    = (Raises ValueError, [0.5%R])
  ∧ calculate_investment_projection replay 17179869184
      1000000 5000 4 36028797018963968 [0.5%R]
    = (Raises ValueError, [0.5%R])
  ∧ calculate_investment_projection replay 17179869184
      1000000 5000 4 1000000 [0.5%R]
    = (Raises MemoryError, [0.5%R]).
Proof.
  split_and!.
  - apply (no_parameter_validation replay 17179869184 (-1) (-1) 4 0 [0.5%R]);
      [lia|horizon_fits_by_computation].
  - apply (no_parameter_validation replay 17179869184
             1000000 5000 4 (-1) [0.5%R]); [lia|].
    left. lia.
  - apply (no_parameter_validation replay 17179869184
             1000000 5000 4 36028797018963968 [0.5%R]); [lia|].
    right. unfold array_bytes, num_simulations, NPY_MAX_INTP. lia.
  - apply (no_parameter_validation replay 17179869184
             1000000 5000 4 1000000 [0.5%R]);
      unfold array_bytes, num_simulations, NPY_MAX_INTP; lia.
Defined.

(** ** C2: the risk level *)

(** C2.  The lookup of the risk level is an exact match on the keys
    1..8: any other level raises [KeyError] for that level out of the
    engine, whatever the other arguments, before anything is allocated
    or drawn; a level in 1..8 is found. *)
Theorem risk_level_exact_match {rng}
    (np_random_normal : R → R → rng → R * rng) (memory : Z)
    (initial_amount monthly_contribution : R) (risk_appetite years : Z) (g : rng) :
  (¬ (1 ≤ risk_appetite ≤ 8)%Z →
     calculate_investment_projection np_random_normal memory
       initial_amount monthly_contribution risk_appetite years g
     = (Raises (KeyError risk_appetite), g))
  ∧ ((1 ≤ risk_appetite ≤ 8)%Z →
       ∃ params, dict_getitem risk_parameters risk_appetite g
                 = (Returns params, g)).
Proof.
  split.
  - intros Hr. by apply projection_key_error, risk_parameters_invalid.
  - intros Hr. destruct (risk_parameters_valid _ Hr) as (params & Hp & _).
    exists params. unfold dict_getitem. by rewrite Hp.
Qed.

Lemma risk_level_exact_match_witness :
  calculate_investment_projection replay 17179869184 1000000 5000 9 10 []
  = (Raises (KeyError 9), [])
  ∧ calculate_investment_projection replay 17179869184 1000000 5000 0 10 []
    = (Raises (KeyError 0), [])
  ∧ ∃ params, dict_getitem risk_parameters 8 ([] : list R) = (Returns params, []).
Proof.
  split_and!.
  - apply (risk_level_exact_match replay 17179869184 1000000 5000 9 10 []). lia.
  - apply (risk_level_exact_match replay 17179869184 1000000 5000 0 10 []). lia.
  - apply (risk_level_exact_match replay 17179869184 1000000 5000 8 10 []). lia.
Defined.

(** ** C3: the risk table *)

(** C3.  The table holds exactly the eight pairs of the design
    document, and both the mean return and the volatility increase
    strictly with the risk level. *)
Theorem risk_table_values :
  risk_parameters !! 1%Z = Some (mkRisk 0.04 0.05)
  ∧ risk_parameters !! 2%Z = Some (mkRisk 0.05 0.07)
  ∧ risk_parameters !! 3%Z = Some (mkRisk 0.06 0.09)
  ∧ risk_parameters !! 4%Z = Some (mkRisk 0.07 0.11)
  ∧ risk_parameters !! 5%Z = Some (mkRisk 0.08 0.14)
  ∧ risk_parameters !! 6%Z = Some (mkRisk 0.10 0.17)
  ∧ risk_parameters !! 7%Z = Some (mkRisk 0.12 0.20)
  ∧ risk_parameters !! 8%Z = Some (mkRisk 0.14 0.25)
  ∧ ∀ (a b : Z) (pa pb : RiskParameters),
      (1 ≤ a)%Z → (a < b)%Z → (b ≤ 8)%Z →
      risk_parameters !! a = Some pa → risk_parameters !! b = Some pb →
      (mean_return pa < mean_return pb)%R ∧ (volatility pa < volatility pb)%R.
Proof.
  split_and!; try by rewrite risk_parameters_lookup.
  intros a b pa pb Ha Hab Hb. rewrite !risk_parameters_lookup.
  repeat case_bool_decide; intros; simplify_eq; try lia; simpl; lra.
Qed.

Lemma risk_table_values_witness :
  (mean_return (mkRisk 0.08 0.14) < mean_return (mkRisk 0.10 0.17))%R
  ∧ (volatility (mkRisk 0.08 0.14) < volatility (mkRisk 0.10 0.17))%R.
Proof.
  apply (proj2 (proj2 (proj2 (proj2 (proj2 (proj2 (proj2 (proj2
           risk_table_values))))))) 5%Z 6%Z);
    [lia|lia|lia|reflexivity|reflexivity].
Defined.

(** ** C4: the monthly parameters *)

(** Twelve months of the monthly return compound to the annual return. *)
Lemma monthly_return_compounds (annual_return : R) :
  (-1 < annual_return)%R →
  ((1 + monthly_return annual_return) ^ 12 = 1 + annual_return)%R.
Proof.
  intros Ha. unfold monthly_return.
  replace (1 + (Rpower (1 + annual_return) (1 / 12) - 1))%R
    with (Rpower (1 + annual_return) (1 / 12)) by ring.
  rewrite <- Rpower_pow by apply exp_pos.
  rewrite Rpower_mult.
  replace (1 / 12 * INR 12)%R with 1%R by (rewrite INR_IZR_INZ; change (Z.of_nat 12) with 12%Z; lra).
  apply Rpower_1. lra.
Qed.

(** Bernoulli's inequality over twelve periods, strictly. *)
Lemma twelve_periods_exceed (h : R) :
  (0 < h)%R → (1 + 12 * h < (1 + h) ^ 12)%R.
Proof.
  intros Hh. pose proof (poly 11 h Hh) as H11.
  replace (INR 11) with 11%R in H11
    by (rewrite INR_IZR_INZ; change (Z.of_nat 11) with 11%Z; lra).
  change ((1 + h) ^ 12)%R with ((1 + h) * (1 + h) ^ 11)%R.
  nra.
Qed.

(** The monthly return is below a twelfth of the annual return: the
    conversion is not the simple division. *)
Lemma monthly_return_below_twelfth (annual_return : R) :
  (0 < annual_return)%R →
  (monthly_return annual_return < annual_return / 12)%R.
Proof.
  intros Ha.
  destruct (Rlt_le_dec (monthly_return annual_return) (annual_return / 12))
    as [|Hge]; [done|exfalso].
  pose proof (monthly_return_compounds annual_return ltac:(lra)) as Hc.
  pose proof (twelve_periods_exceed (annual_return / 12) ltac:(lra)) as Hb.
  assert ((1 + annual_return / 12) ^ 12
          <= (1 + monthly_return annual_return) ^ 12)%R as Hpow
    by (apply pow_incr; lra).
  revert Hc Hb Hpow.
  generalize ((1 + annual_return / 12) ^ 12)%R
             ((1 + monthly_return annual_return) ^ 12)%R.
  intros A B. lra.
Qed.

Lemma monthly_volatility_scales (annual_volatility : R) :
  (monthly_volatility annual_volatility * sqrt 12 = annual_volatility)%R
  ∧ (12 * (monthly_volatility annual_volatility
           * monthly_volatility annual_volatility)
     = annual_volatility * annual_volatility)%R.
Proof.
  pose proof sqrt_12_pos as Hs.
  assert (sqrt 12 * sqrt 12 = 12)%R as Hsq by (apply sqrt_sqrt; lra).
  unfold monthly_volatility. split.
  - field. lra.
  - rewrite <- Hsq at 1. field. lra.
Qed.

(** C4.  For the pair [(annual_return, annual_volatility)] resolved from
    the risk table, every draw of the engine is made with mean
    [(1 + annual_return)^(1/12) - 1] and standard deviation
    [annual_volatility / sqrt 12].  The mean compounds over twelve
    months to the annual return and is strictly below
    [annual_return / 12]; the standard deviation times [sqrt 12] is the
    annual volatility. *)
Theorem monthly_parameters_derivation {rng}
    (np_random_normal : R → R → rng → R * rng) (memory : Z)
    (initial_amount monthly_contribution : R) (risk_appetite years : Z)
    (params : RiskParameters) (g : rng) :
  risk_parameters !! risk_appetite = Some params →
  horizon_fits memory years →
  let annual_return := mean_return params in
  let annual_volatility := volatility params in
  let mu := (Rpower (1 + annual_return) (1 / 12) - 1)%R in
  let sigma := (annual_volatility / sqrt 12)%R in
  let months := Z.to_nat (years * 12) in
  let n := Z.to_nat num_simulations in
  calculate_investment_projection np_random_normal memory
    initial_amount monthly_contribution risk_appetite years g
  = (Returns
       (table_of initial_amount monthly_contribution
          (ensemble np_random_normal initial_amount monthly_contribution
             mu sigma g months n) months),
     state_after np_random_normal mu sigma g (n * months))
  ∧ ((1 + mu) ^ 12 = 1 + annual_return)%R
  ∧ (mu < annual_return / 12)%R
  ∧ (sigma * sqrt 12 = annual_volatility)%R
  ∧ (12 * (sigma * sigma) = annual_volatility * annual_volatility)%R.
Proof.
  intros Hp Hy annual_return annual_volatility mu sigma months n.
  assert ((0 < annual_return)%R ∧ (0 < annual_volatility)%R) as [Hret Hvol].
  { revert Hp. rewrite risk_parameters_lookup. unfold annual_return, annual_volatility.
    repeat case_bool_decide; intros; simplify_eq; simpl; lra. }
  split_and!.
  - apply (projection_returns _ _ _ _ _ _ params); [done|fold annual_volatility; lra|done].
  - apply monthly_return_compounds. lra.
  - by apply monthly_return_below_twelfth.
  - apply monthly_volatility_scales.
  - apply monthly_volatility_scales.
Qed.

Lemma monthly_parameters_derivation_witness :
  let mu := (Rpower (1 + 0.07) (1 / 12) - 1)%R in
  let sigma := (0.11 / sqrt 12)%R in
  calculate_investment_projection replay 17179869184 1000000 5000 4 10 [0.5%R]
  = (Returns
       (table_of 1000000 5000
          (ensemble replay 1000000 5000 mu sigma [0.5%R]
             (Z.to_nat (10 * 12)) (Z.to_nat num_simulations))
          (Z.to_nat (10 * 12))),
     state_after replay mu sigma [0.5%R]
       (Z.to_nat num_simulations * Z.to_nat (10 * 12)))
  ∧ ((1 + mu) ^ 12 = 1 + 0.07)%R
  ∧ (mu < 0.07 / 12)%R
  ∧ (sigma * sqrt 12 = 0.11)%R
  ∧ (12 * (sigma * sigma) = 0.11 * 0.11)%R.
Proof.
  apply (monthly_parameters_derivation replay 17179869184 1000000 5000 4 10
           (mkRisk 0.07 0.11) [0.5%R]);
    [reflexivity|horizon_fits_by_computation].
Defined.

(** ** C5: the trajectories *)

Lemma cell_ensemble_0 {rng} (np_random_normal : R → R → rng → R * rng)
    (initial_amount monthly_contribution mu sigma : R) (g : rng)
    (months n i : nat) :
  i < n →
  cell (ensemble np_random_normal initial_amount monthly_contribution
          mu sigma g months n) i 0
  = Some initial_amount.
Proof.
  intros Hi. unfold cell. rewrite lookup_ensemble by done. cbn.
  apply lookup_path_0.
Qed.

Lemma cell_ensemble_S {rng} (np_random_normal : R → R → rng → R * rng)
    (initial_amount monthly_contribution mu sigma : R) (g : rng)
    (months n i k : nat) :
  i < n → k < months →
  ∃ value,
    cell (ensemble np_random_normal initial_amount monthly_contribution
            mu sigma g months n) i k
    = Some value
    ∧ cell (ensemble np_random_normal initial_amount monthly_contribution
              mu sigma g months n) i (S k)
      = Some (value
              * (1 + random_return_at np_random_normal mu sigma g months i (S k))
              + monthly_contribution)%R.
Proof.
  intros Hi Hk. unfold cell. rewrite lookup_ensemble by done. cbn.
  set (rs := draws np_random_normal mu sigma
               (state_after np_random_normal mu sigma g (i * months)) months).
  destruct (lookup_lt_is_Some_2 (path monthly_contribution initial_amount rs) k)
    as [value Hvalue].
  { rewrite length_path. unfold rs. rewrite length_draws. lia. }
  exists value. split; [done|].
  apply lookup_path_S; [|done].
  unfold rs, random_return_at. rewrite lookup_draws by done.
  replace (S k - 1) with k by lia. by rewrite state_after_add.
Qed.

(** C5.  In the arrays the engine's simulation stage fills, every
    trajectory starts from the initial amount in both arrays, and month
    by month the value is the previous value grown by that month's draw
    plus the contribution (added after the growth), the invested amount
    the previous one plus the contribution.  The draw of month [m] of
    trajectory [i] is the [(i * months + m)]-th the generator yields. *)
Theorem trajectory_recurrence {rng}
    (np_random_normal : R → R → rng → R * rng) (memory : Z)
    (initial_amount monthly_contribution : R) (risk_appetite years : Z) (g : rng) :
  (1 ≤ risk_appetite ≤ 8)%Z →
  horizon_fits memory years →
  ∃ params simulations cumulative_investment g',
    risk_parameters !! risk_appetite = Some params
    ∧ simulate np_random_normal memory initial_amount monthly_contribution
        (monthly_return (mean_return params))
        (monthly_volatility (volatility params)) (years * 12) g
      = (Returns (simulations, cumulative_investment), g')
    ∧ ∀ i : nat, i < Z.to_nat num_simulations →
        cell simulations i 0 = Some initial_amount
        ∧ cell cumulative_investment i 0 = Some initial_amount
        ∧ ∀ m : nat, 1 ≤ m ≤ Z.to_nat (years * 12) →
            ∃ value invested,
              cell simulations i (m - 1) = Some value
              ∧ cell cumulative_investment i (m - 1) = Some invested
              ∧ cell simulations i m
                = Some (value
                        * (1 + random_return_at np_random_normal
                                 (monthly_return (mean_return params))
                                 (monthly_volatility (volatility params))
                                 g (Z.to_nat (years * 12)) i m)
                        + monthly_contribution)%R
              ∧ cell cumulative_investment i m
                = Some (invested + monthly_contribution)%R.
Proof.
  intros Hr Hy. pose proof (horizon_fits_nonneg _ _ Hy) as Hy0.
  destruct (risk_parameters_valid _ Hr) as (params & Hp & _ & Hvol).
  exists params. do 3 eexists. split; [done|]. split.
  { apply simulate_fits; [apply monthly_volatility_nonneg; lra|done]. }
  intros i Hi. split_and!.
  - by apply cell_ensemble_0.
  - unfold cell. rewrite lookup_replicate_2 by done. cbn.
    rewrite lookup_contributions by lia. f_equal. simpl. ring.
  - intros m Hm. destruct m as [|k]; [lia|].
    replace (S k - 1) with k by lia.
    destruct (cell_ensemble_S np_random_normal initial_amount monthly_contribution
                (monthly_return (mean_return params))
                (monthly_volatility (volatility params)) g
                (Z.to_nat (years * 12)) (Z.to_nat num_simulations) i k)
      as (value & Hvalue & Hnext); [done|lia|].
    exists value, (initial_amount + INR k * monthly_contribution)%R.
    split_and!; [done| |done|].
    + unfold cell. rewrite lookup_replicate_2 by done. cbn.
      by rewrite lookup_contributions by lia.
    + unfold cell. rewrite lookup_replicate_2 by done. cbn.
      rewrite lookup_contributions by lia. f_equal. rewrite S_INR. ring.
Qed.

Lemma trajectory_recurrence_witness :
  ∃ params simulations cumulative_investment g',
    risk_parameters !! 4%Z = Some params
    ∧ simulate replay 17179869184 1000000 5000
        (monthly_return (mean_return params))
        (monthly_volatility (volatility params)) (10 * 12) [0.5%R; (-1.25)%R]
      = (Returns (simulations, cumulative_investment), g')
    ∧ ∀ i : nat, i < Z.to_nat num_simulations →
        cell simulations i 0 = Some 1000000%R
        ∧ cell cumulative_investment i 0 = Some 1000000%R
        ∧ ∀ m : nat, 1 ≤ m ≤ Z.to_nat (10 * 12) →
            ∃ value invested,
              cell simulations i (m - 1) = Some value
              ∧ cell cumulative_investment i (m - 1) = Some invested
              ∧ cell simulations i m
                = Some (value
                        * (1 + random_return_at replay
                                 (monthly_return (mean_return params))
                                 (monthly_volatility (volatility params))
                                 [0.5%R; (-1.25)%R] (Z.to_nat (10 * 12)) i m)
                        + 5000)%R
              ∧ cell cumulative_investment i m = Some (invested + 5000)%R.
Proof.
  apply (trajectory_recurrence replay 17179869184 1000000 5000 4 10
           [0.5%R; (-1.25)%R]);
    (lia || horizon_fits_by_computation).
Defined.

(** ** C6: the shape of the result *)

(** C6.  For a positive horizon (that fits) the engine returns a table of exactly
    [years * 12 + 1] records; record [k] has month [k], for
    [k = 0 .. years * 12], and its year is its month divided by 12. *)
Theorem result_records {rng}
    (np_random_normal : R → R → rng → R * rng) (memory : Z)
    (initial_amount monthly_contribution : R) (risk_appetite years : Z) (g : rng) :
  (1 ≤ risk_appetite ≤ 8)%Z →
  (0 < years)%Z →
  horizon_fits memory years →
  ∃ df g',
    calculate_investment_projection np_random_normal memory
      initial_amount monthly_contribution risk_appetite years g
    = (Returns df, g')
    ∧ nrows df = Z.to_nat (years * 12 + 1)
    ∧ (∀ k : nat, (Z.of_nat k ≤ years * 12)%Z →
         ∃ record, iloc df k = Some record
                   ∧ month record = Z.of_nat k
                   ∧ year record = (IZR (month record) / 12)%R)
    ∧ (∀ k : nat, (years * 12 < Z.of_nat k)%Z → iloc df k = None).
Proof.
  intros Hr Hpos Hy.
  destruct (risk_parameters_valid _ Hr) as (params & Hp & _ & Hvol).
  do 2 eexists. split_and!.
  - apply (projection_returns _ _ _ _ _ _ params); [done|lra|done].
  - rewrite nrows_table_of. lia.
  - intros k Hk. eexists. split.
    + apply iloc_table_of; [|lia].
      apply ncols_ensemble, num_simulations_pos.
    + done.
  - intros k Hk. apply iloc_table_of_None. lia.
Qed.

Lemma result_records_witness :
  ∃ df g',
    calculate_investment_projection replay 17179869184 1000000 5000 4 10 [0.5%R]
    = (Returns df, g')
    ∧ nrows df = Z.to_nat (10 * 12 + 1)
    ∧ (∀ k : nat, (Z.of_nat k ≤ 10 * 12)%Z →
         ∃ record, iloc df k = Some record
                   ∧ month record = Z.of_nat k
                   ∧ year record = (IZR (month record) / 12)%R)
    ∧ (∀ k : nat, (10 * 12 < Z.of_nat k)%Z → iloc df k = None).
Proof.
  apply (result_records replay 17179869184 1000000 5000 4 10 [0.5%R]);
    (lia || horizon_fits_by_computation).
Defined.

(** ** C7: the percentile bands *)

(** Entry [i] of column [m] is the cell of trajectory [i] at month [m]. *)
Lemma lookup_column_ensemble {rng} (np_random_normal : R → R → rng → R * rng)
    (initial_amount monthly_contribution mu sigma : R) (g : rng)
    (months n m i : nat) :
  m ≤ months → i < n →
  column (ensemble np_random_normal initial_amount monthly_contribution
            mu sigma g months n) m !! i
  = cell (ensemble np_random_normal initial_amount monthly_contribution
            mu sigma g months n) i m.
Proof.
  intros Hm Hi. unfold column, cell.
  rewrite list_lookup_fmap, lookup_ensemble by done. cbn.
  destruct (lookup_lt_is_Some_2
              (path monthly_contribution initial_amount
                 (draws np_random_normal mu sigma
                    (state_after np_random_normal mu sigma g (i * months))
                    months)) m) as [v Hv].
  { rewrite length_path, length_draws. lia. }
  by rewrite Hv.
Qed.

(** C7.  At every month [m] the reported lower bound, median and upper
    bound are the 10th, 50th and 90th percentiles of the sample made of
    the values that the [num_simulations] trajectories have at that
    month (entry [i] of the sample is the cell [simulations[i, m]]), in
    the linear-interpolation sense: rank [p/100 * (N - 1)] in the
    sorted values, interpolated between the two adjacent order
    statistics. *)
Theorem percentile_bands {rng}
    (np_random_normal : R → R → rng → R * rng) (memory : Z)
    (initial_amount monthly_contribution : R) (risk_appetite years : Z) (g : rng) :
  (1 ≤ risk_appetite ≤ 8)%Z →
  horizon_fits memory years →
  ∃ params simulations cumulative_investment df g',
    risk_parameters !! risk_appetite = Some params
    ∧ simulate np_random_normal memory initial_amount monthly_contribution
        (monthly_return (mean_return params))
        (monthly_volatility (volatility params)) (years * 12) g
      = (Returns (simulations, cumulative_investment), g')
    ∧ calculate_investment_projection np_random_normal memory
        initial_amount monthly_contribution risk_appetite years g
      = (Returns df, g')
    ∧ ∀ m : nat, (Z.of_nat m ≤ years * 12)%Z →
        ∃ (sample : list R) (record : ProjectionRecord),
          length sample = Z.to_nat num_simulations
          ∧ (∀ i : nat, i < Z.to_nat num_simulations →
               sample !! i = cell simulations i m)
          ∧ iloc df m = Some record
          ∧ is_percentile sample 10 (lower_p10 record)
          ∧ is_percentile sample 50 (median record)
          ∧ is_percentile sample 90 (upper_p90 record).
Proof.
  intros Hr Hy. pose proof (horizon_fits_nonneg _ _ Hy) as Hy0.
  destruct (risk_parameters_valid _ Hr) as (params & Hp & _ & Hvol).
  exists params. do 4 eexists. split_and!.
  - done.
  - apply simulate_fits; [apply monthly_volatility_nonneg; lra|done].
  - apply (projection_returns _ _ _ _ _ _ params); [done|lra|done].
  - intros m Hm.
    set (sims := ensemble np_random_normal initial_amount monthly_contribution
                   (monthly_return (mean_return params))
                   (monthly_volatility (volatility params)) g
                   (Z.to_nat (years * 12)) (Z.to_nat num_simulations)).
    assert (length (column sims m) = Z.to_nat num_simulations) as Hlen
      by (unfold sims; by rewrite length_column, length_ensemble).
    assert (column sims m ≠ []) as Hne.
    { apply column_nonempty. unfold sims. rewrite length_ensemble.
      apply num_simulations_pos. }
    exists (column sims m),
      (mkRecord (Z.of_nat m) (IZR (Z.of_nat m) / 12)
         (percentile_1d (column sims m) 50)
         (percentile_1d (column sims m) 10)
         (percentile_1d (column sims m) 90)
         (initial_amount + INR m * monthly_contribution)).
    split_and!.
    + done.
    + intros i Hi. apply lookup_column_ensemble; [lia|done].
    + apply iloc_table_of; [|lia].
      apply ncols_ensemble, num_simulations_pos.
    + apply percentile_1d_is_percentile; [done|lra].
    + apply percentile_1d_is_percentile; [done|lra].
    + apply percentile_1d_is_percentile; [done|lra].
Qed.

Lemma percentile_bands_witness :
  ∃ params simulations cumulative_investment df g',
    risk_parameters !! 4%Z = Some params
    ∧ simulate replay 17179869184 1000000 5000
        (monthly_return (mean_return params))
        (monthly_volatility (volatility params)) (10 * 12) [0.5%R; (-1.25)%R]
      = (Returns (simulations, cumulative_investment), g')
    ∧ calculate_investment_projection replay 17179869184 1000000 5000 4 10
        [0.5%R; (-1.25)%R]
      = (Returns df, g')
    ∧ ∀ m : nat, (Z.of_nat m ≤ 10 * 12)%Z →
        ∃ (sample : list R) (record : ProjectionRecord),
          length sample = Z.to_nat num_simulations
          ∧ (∀ i : nat, i < Z.to_nat num_simulations →
               sample !! i = cell simulations i m)
          ∧ iloc df m = Some record
          ∧ is_percentile sample 10 (lower_p10 record)
          ∧ is_percentile sample 50 (median record)
          ∧ is_percentile sample 90 (upper_p90 record).
Proof.
  apply (percentile_bands replay 17179869184 1000000 5000 4 10
           [0.5%R; (-1.25)%R]);
    (lia || horizon_fits_by_computation).
Defined.

(** ** C8: the bands are ordered *)

(** The bands of a table are ordered, whatever the ensemble. *)
Lemma iloc_table_of_ordered (initial_amount monthly_contribution : R)
    (simulations : ndarray) (months m : nat) (record : ProjectionRecord) :
  ncols simulations = S months → 0 < length simulations →
  iloc (table_of initial_amount monthly_contribution simulations months) m
  = Some record →
  (lower_p10 record <= median record <= upper_p90 record)%R.
Proof.
  intros Hcols Hrows Hrec.
  destruct (decide (m ≤ months)) as [Hm|Hm].
  - rewrite iloc_table_of in Hrec by done.
    injection Hrec as <-. cbn [lower_p10 median upper_p90].
    split; apply percentile_1d_mono; (by apply column_nonempty) || lra.
  - rewrite iloc_table_of_None in Hrec by lia. done.
Qed.

(** C8.  For any array of at least two trajectories, whatever its
    values, numpy's 10th, 50th and 90th percentiles of every column
    are in that order; and so are the lower bound, the median and the
    upper bound of every record the engine returns, whatever the
    draws. *)
Theorem bands_are_ordered {rng}
    (np_random_normal : R → R → rng → R * rng) (memory : Z)
    (a : ndarray) (j : nat)
    (initial_amount monthly_contribution : R) (risk_appetite years : Z) (g : rng) :
  2 ≤ length a →
  j < ncols a →
  (1 ≤ risk_appetite ≤ 8)%Z →
  horizon_fits memory years →
  (∃ lower_bound median_projection upper_bound,
     np_percentile a 10 !! j = Some lower_bound
     ∧ np_percentile a 50 !! j = Some median_projection
     ∧ np_percentile a 90 !! j = Some upper_bound
     ∧ (lower_bound <= median_projection <= upper_bound)%R)
  ∧ ∃ df g',
      calculate_investment_projection np_random_normal memory
        initial_amount monthly_contribution risk_appetite years g
      = (Returns df, g')
      ∧ ∀ (m : nat) (record : ProjectionRecord),
          iloc df m = Some record →
          (lower_p10 record <= median record <= upper_p90 record)%R.
Proof.
  intros Ha Hj Hr Hy. split.
  - do 3 eexists. rewrite !lookup_np_percentile by done.
    split_and!; try done.
    + apply percentile_1d_mono; [apply column_nonempty; lia|lra..].
    + apply percentile_1d_mono; [apply column_nonempty; lia|lra..].
  - destruct (risk_parameters_valid _ Hr) as (params & Hp & _ & Hvol).
    do 2 eexists. split.
    + apply (projection_returns _ _ _ _ _ _ params); [done|lra|done].
    + intros m record. apply iloc_table_of_ordered.
      * apply ncols_ensemble, num_simulations_pos.
      * rewrite length_ensemble. apply num_simulations_pos.
Qed.

Lemma bands_are_ordered_witness :
  (∃ lower_bound median_projection upper_bound,
     np_percentile [[3%R; 1%R]; [1%R; 4%R]; [2%R; 1%R]] 10 !! 0
     = Some lower_bound
     ∧ np_percentile [[3%R; 1%R]; [1%R; 4%R]; [2%R; 1%R]] 50 !! 0
       = Some median_projection
     ∧ np_percentile [[3%R; 1%R]; [1%R; 4%R]; [2%R; 1%R]] 90 !! 0
       = Some upper_bound
     ∧ (lower_bound <= median_projection <= upper_bound)%R)
  ∧ ∃ df g',
      calculate_investment_projection replay 17179869184 1000000 5000 4 10 [0.5%R]
      = (Returns df, g')
      ∧ ∀ (m : nat) (record : ProjectionRecord),
          iloc df m = Some record →
          (lower_p10 record <= median record <= upper_p90 record)%R.
Proof.
  apply (bands_are_ordered replay 17179869184
           [[3%R; 1%R]; [1%R; 4%R]; [2%R; 1%R]] 0 1000000 5000 4 10 [0.5%R]);
    [simpl; lia|unfold ncols; simpl; lia|lia|horizon_fits_by_computation].
Defined.

(** ** C9: the invested amounts *)

(** C9.  The invested amounts do not depend on the draws: in every
    trajectory the amount at month [m] is the initial amount plus [m]
    contributions, every row of the array is the column the engine
    reports (it reads row 0), and without contributions that column is
    the initial amount at every month. *)
Theorem cumulative_deterministic {rng}
    (np_random_normal : R → R → rng → R * rng) (memory : Z)
    (initial_amount monthly_contribution : R) (risk_appetite years : Z) (g : rng) :
  (1 ≤ risk_appetite ≤ 8)%Z →
  horizon_fits memory years →
  ∃ params simulations cumulative_investment df g',
    risk_parameters !! risk_appetite = Some params
    ∧ simulate np_random_normal memory initial_amount monthly_contribution
        (monthly_return (mean_return params))
        (monthly_volatility (volatility params)) (years * 12) g
      = (Returns (simulations, cumulative_investment), g')
    ∧ calculate_investment_projection np_random_normal memory
        initial_amount monthly_contribution risk_appetite years g
      = (Returns df, g')
    ∧ (∀ i m : nat, i < Z.to_nat num_simulations → (Z.of_nat m ≤ years * 12)%Z →
         cell cumulative_investment i m
         = Some (initial_amount + INR m * monthly_contribution)%R)
    ∧ (∀ i : nat, i < Z.to_nat num_simulations →
         cumulative_investment !! i = Some (Cumulative_Investment df))
    ∧ (∀ m : nat, (Z.of_nat m ≤ years * 12)%Z →
         ∃ record, iloc df m = Some record
                   ∧ cumulative_contribution record
                     = (initial_amount + INR m * monthly_contribution)%R)
    ∧ (monthly_contribution = 0%R →
       ∀ m : nat, (Z.of_nat m ≤ years * 12)%Z →
         ∃ record, iloc df m = Some record
                   ∧ cumulative_contribution record = initial_amount).
Proof.
  intros Hr Hy. pose proof (horizon_fits_nonneg _ _ Hy) as Hy0.
  destruct (risk_parameters_valid _ Hr) as (params & Hp & _ & Hvol).
  exists params. do 4 eexists. split_and!.
  - done.
  - apply simulate_fits; [apply monthly_volatility_nonneg; lra|done].
  - apply (projection_returns _ _ _ _ _ _ params); [done|lra|done].
  - intros i m Hi Hm. unfold cell. rewrite lookup_replicate_2 by done. cbn.
    apply lookup_contributions. lia.
  - intros i Hi. by rewrite lookup_replicate_2.
  - intros m Hm. eexists. split.
    + apply iloc_table_of; [|lia]. apply ncols_ensemble, num_simulations_pos.
    + done.
  - intros Hzero m Hm. eexists. split.
    + apply iloc_table_of; [|lia]. apply ncols_ensemble, num_simulations_pos.
    + cbn. rewrite Hzero. ring.
Qed.

Lemma cumulative_deterministic_witness :
  ∃ params simulations cumulative_investment df g',
    risk_parameters !! 4%Z = Some params
    ∧ simulate replay 17179869184 1000000 0
        (monthly_return (mean_return params))
        (monthly_volatility (volatility params)) (10 * 12) [0.5%R]
      = (Returns (simulations, cumulative_investment), g')
    ∧ calculate_investment_projection replay 17179869184 1000000 0 4 10 [0.5%R]
      = (Returns df, g')
    ∧ (∀ i m : nat, i < Z.to_nat num_simulations → (Z.of_nat m ≤ 10 * 12)%Z →
         cell cumulative_investment i m = Some (1000000 + INR m * 0)%R)
    ∧ (∀ i : nat, i < Z.to_nat num_simulations →
         cumulative_investment !! i = Some (Cumulative_Investment df))
    ∧ (∀ m : nat, (Z.of_nat m ≤ 10 * 12)%Z →
         ∃ record, iloc df m = Some record
                   ∧ cumulative_contribution record
                     = (1000000 + INR m * 0)%R)
    ∧ (0%R = 0%R →
       ∀ m : nat, (Z.of_nat m ≤ 10 * 12)%Z →
         ∃ record, iloc df m = Some record
                   ∧ cumulative_contribution record = 1000000%R).
Proof.
  apply (cumulative_deterministic replay 17179869184 1000000 0 4 10 [0.5%R]);
    (lia || horizon_fits_by_computation).
Defined.

(** ** C10: the worked example *)

(** C10.  For an initial amount of 1,000,000, a monthly contribution of
    5,000, risk level 4 and a horizon of 10 years, whatever the draws
    (the two arrays of a 10-year run, 968,000 bytes each, being
    granted): the table has 121 records, record 0 is month 0, year 0,
    with the median and both bounds at 1,000,000 and 1,000,000
    invested, and record 120 has 1,600,000 invested. *)
Theorem worked_example {rng} (np_random_normal : R → R → rng → R * rng)
    (memory : Z) (g : rng) :
  horizon_fits memory 10 →
  ∃ df g',
    calculate_investment_projection np_random_normal memory 1000000 5000 4 10 g
    = (Returns df, g')
    ∧ nrows df = 121
    ∧ iloc df 0 = Some (mkRecord 0 0 1000000 1000000 1000000 1000000)
    ∧ ∃ record, iloc df 120 = Some record
                ∧ month record = 120%Z
                ∧ cumulative_contribution record = 1600000%R.
Proof.
  intros Hfits. do 2 eexists. split_and!.
  - apply (projection_returns _ _ _ _ _ _ (mkRisk 0.07 0.11));
      [by rewrite risk_parameters_lookup|simpl; lra|done].
  - by rewrite nrows_table_of.
  - rewrite iloc_table_of;
      [|apply ncols_ensemble, num_simulations_pos|lia].
    assert (∀ q, (0 <= q <= 100)%R →
              percentile_1d
                (column
                   (ensemble np_random_normal 1000000 5000
                      (monthly_return (mean_return (mkRisk 0.07 0.11)))
                      (monthly_volatility (volatility (mkRisk 0.07 0.11))) g
                      (Z.to_nat (10 * 12)) (Z.to_nat num_simulations)) 0) q
              = 1000000%R) as Hmonth0.
    { intros q Hq. apply percentile_1d_const; [|apply column_0_ensemble|done].
      intros Hnil. apply (f_equal length) in Hnil.
      rewrite length_column, length_ensemble in Hnil.
      pose proof num_simulations_pos. simpl in Hnil. lia. }
    rewrite !Hmonth0 by lra. change (Z.of_nat 0) with 0%Z.
    f_equal. f_equal; simpl; lra.
  - eexists. split_and!.
    + apply iloc_table_of;
        [apply ncols_ensemble, num_simulations_pos|lia].
    + done.
    + cbn [cumulative_contribution].
      replace (INR 120) with 120%R
        by (rewrite INR_IZR_INZ; change (Z.of_nat 120) with 120%Z; done).
      lra.
Qed.

Lemma worked_example_witness :
  ∃ df g',
    calculate_investment_projection replay 968000 1000000 5000 4 10 [0.5%R]
    = (Returns df, g')
    ∧ nrows df = 121
    ∧ iloc df 0 = Some (mkRecord 0 0 1000000 1000000 1000000 1000000)
    ∧ ∃ record, iloc df 120 = Some record
                ∧ month record = 120%Z
                ∧ cumulative_contribution record = 1600000%R.
Proof.
  apply (worked_example replay 968000 [0.5%R]). horizon_fits_by_computation.
Defined.

(** * Further properties of the engine and the page *)

(** ** Outcomes *)

(** X1.  Whatever the arguments, the engine never raises
    [IndexError]: every index its loops compute is within the arrays.
    And whenever it raises, no draw has been made: the generator state
    is the one the engine was called with. *)
Theorem raises_before_any_draw {rng}
    (np_random_normal : R → R → rng → R * rng) (memory : Z)
    (initial_amount monthly_contribution : R) (risk_appetite years : Z)
    (g g' : rng) (e : exception) :
  calculate_investment_projection np_random_normal memory
    initial_amount monthly_contribution risk_appetite years g
  = (Raises e, g') →
  e ≠ IndexError ∧ g' = g.
Proof.
  destruct (decide (1 ≤ risk_appetite ≤ 8)%Z) as [Hr|Hr].
  - destruct (risk_parameters_valid _ Hr) as (params & Hp & _ & Hvol).
    destruct (decide (years < 0 ∨ NPY_MAX_INTP < array_bytes years)%Z)
      as [Hbad|Hgood].
    + rewrite (projection_value_error _ _ _ _ _ _ params) by done.
      by intros [= <- <-].
    + destruct (decide (memory < array_bytes years)%Z) as [Hmem|Hmem].
      * rewrite (projection_memory_error _ _ _ _ _ _ params) by (done || lia).
        by intros [= <- <-].
      * rewrite (projection_returns _ _ _ _ _ _ params); [done|done|lra|].
        unfold horizon_fits. lia.
  - rewrite projection_key_error by (by apply risk_parameters_invalid).
    by intros [= <- <-].
Qed.

(** ** The first record *)

(** X2.  Whatever the amounts, the risk level of the table and the
    horizon, the first record of the table is month 0, year 0, with the
    median, both bounds and the invested amount all equal to the
    initial amount. *)
Theorem first_record {rng}
    (np_random_normal : R → R → rng → R * rng) (memory : Z)
    (initial_amount monthly_contribution : R) (risk_appetite years : Z) (g : rng) :
  (1 ≤ risk_appetite ≤ 8)%Z →
  horizon_fits memory years →
  ∃ df g',
    calculate_investment_projection np_random_normal memory
      initial_amount monthly_contribution risk_appetite years g
    = (Returns df, g')
    ∧ iloc df 0
      = Some (mkRecord 0 0 initial_amount initial_amount initial_amount
                initial_amount).
Proof.
  intros Hr Hy. pose proof (horizon_fits_nonneg _ _ Hy) as Hy0.
  destruct (risk_parameters_valid _ Hr) as (params & Hp & _ & Hvol).
  do 2 eexists. split.
  - apply (projection_returns _ _ _ _ _ _ params); [done|lra|done].
  - rewrite iloc_table_of;
      [|apply ncols_ensemble, num_simulations_pos|lia].
    rewrite !(percentile_1d_const _ initial_amount);
      try (apply column_0_ensemble); try lra;
      try (apply column_nonempty; rewrite length_ensemble;
           apply num_simulations_pos).
    change (Z.of_nat 0) with 0%Z. f_equal. f_equal; simpl; lra.
Qed.

Lemma first_record_witness :
  ∃ df g',
    calculate_investment_projection replay 17179869184 (-250) 75.5 8 0 [0.5%R]
    = (Returns df, g')
    ∧ iloc df 0 = Some (mkRecord 0 0 (-250) (-250) (-250) (-250)).
Proof.
  apply (first_record replay 17179869184 (-250) 75.5 8 0 [0.5%R]);
    (lia || horizon_fits_by_computation).
Defined.

(** ** The table as a function of the draws *)

Lemma draws_app {rng} (np_random_normal : R → R → rng → R * rng)
    (mu sigma : R) (g : rng) (a b : nat) :
  draws np_random_normal mu sigma g (a + b)
  = draws np_random_normal mu sigma g a
    ++ draws np_random_normal mu sigma
         (state_after np_random_normal mu sigma g a) b.
Proof.
  revert g. induction a as [|a IH]; intros g; [done|].
  cbn [Nat.add draws state_after app]. by rewrite IH.
Qed.

(** Trajectory [t] uses the draws from position [t * months] on. *)
Lemma ensemble_of_draws {rng} (np_random_normal : R → R → rng → R * rng)
    (initial_amount monthly_contribution mu sigma : R) (g : rng)
    (months n : nat) :
  ensemble np_random_normal initial_amount monthly_contribution mu sigma
    g months n
  = (λ t, path monthly_contribution initial_amount
            (take months
               (drop (t * months)
                  (draws np_random_normal mu sigma g (n * months)))))
    <$> seq 0 n.
Proof.
  unfold ensemble. apply list_fmap_ext. intros i t Ht.
  apply lookup_seq in Ht as [-> Ht]. cbn [Nat.add]. f_equal.
  replace (n * months) with (i * months + (months + (n - S i) * months)) by nia.
  rewrite draws_app, drop_app_length' by (by rewrite length_draws).
  rewrite draws_app, take_app_length' by (by rewrite length_draws).
  done.
Qed.

(** X3.  The table depends on the generator only through the first
    [1000 * 12 * years] draws: two runs, possibly over different
    generators, that see the same draws return the same table. *)
Theorem same_draws_same_table {rng1 rng2}
    (sampler1 : R → R → rng1 → R * rng1) (sampler2 : R → R → rng2 → R * rng2)
    (memory : Z)
    (initial_amount monthly_contribution : R) (risk_appetite years : Z)
    (params : RiskParameters) (g1 : rng1) (g2 : rng2) :
  risk_parameters !! risk_appetite = Some params →
  horizon_fits memory years →
  draws sampler1 (monthly_return (mean_return params))
    (monthly_volatility (volatility params)) g1
    (Z.to_nat num_simulations * Z.to_nat (years * 12))
  = draws sampler2 (monthly_return (mean_return params))
      (monthly_volatility (volatility params)) g2
      (Z.to_nat num_simulations * Z.to_nat (years * 12)) →
  ∃ df g1' g2',
    calculate_investment_projection sampler1 memory
      initial_amount monthly_contribution risk_appetite years g1
    = (Returns df, g1')
    ∧ calculate_investment_projection sampler2 memory
        initial_amount monthly_contribution risk_appetite years g2
      = (Returns df, g2').
Proof.
  intros Hp Hy Hdraws.
  assert (0 <= volatility params)%R as Hvol.
  { revert Hp. rewrite risk_parameters_lookup.
    repeat case_bool_decide; intros; simplify_eq; simpl; lra. }
  do 3 eexists. split.
  - apply (projection_returns _ _ _ _ _ _ params); done.
  - rewrite (projection_returns _ _ _ _ _ _ params) by done.
    by rewrite (ensemble_of_draws sampler2), <- Hdraws, <- ensemble_of_draws.
Qed.

Lemma same_draws_same_table_witness :
  ∃ df g1' g2',
    calculate_investment_projection replay 17179869184 1000000 5000 4 10 []
    = (Returns df, g1')
    ∧ calculate_investment_projection
        (λ loc scale (g : nat), (loc, S g)) 17179869184 1000000 5000 4 10 0
      = (Returns df, g2').
Proof.
  apply (same_draws_same_table replay (λ loc scale (g : nat), (loc, S g))
           17179869184
           1000000 5000 4 10 (mkRisk 0.07 0.11) [] 0); [reflexivity|horizon_fits_by_computation|].
  generalize (Z.to_nat num_simulations * Z.to_nat (10 * 12)).
  intros n. generalize 0. induction n as [|n IH]; intros k; [done|].
  cbn [draws replay fst snd]. f_equal. apply IH.
Defined.

Lemma raises_before_any_draw_witness :
  KeyError 9 ≠ IndexError ∧ [0.5%R] = [0.5%R]
  ∧ MemoryError ≠ IndexError.
Proof.
  split_and!.
  - apply (raises_before_any_draw replay 17179869184 1000000 5000 9 (-1)
             [0.5%R] [0.5%R] (KeyError 9)).
    reflexivity.
  - apply (raises_before_any_draw replay 17179869184 1000000 5000 9 (-1)
             [0.5%R] [0.5%R] (KeyError 9)).
    reflexivity.
  - apply (raises_before_any_draw replay 17179869184 1000000 5000 4 1000000
             [0.5%R] [0.5%R] MemoryError).
    reflexivity.
Defined.

(** ** The bands lie within the ensemble *)

Lemma interpolates_between (s : list R) (rank v : R) :
  StronglySorted Rle s → interpolates s rank v →
  ∃ lo hi, lo ∈ s ∧ hi ∈ s ∧ (lo <= v <= hi)%R.
Proof.
  intros Hs (k & g & lo & hi & _ & Hg & Hlo & Hhi & ->).
  destruct Hhi as [[-> ->]|Hhi].
  - exists lo, lo. split_and!; try (apply list_elem_of_lookup; eauto); lra.
  - assert (lo <= hi)%R by (apply (sorted_lookup_le s k (S k)); auto with lia).
    exists lo, hi. split_and!; try (apply list_elem_of_lookup; eauto); nra.
Qed.

(** A percentile lies between two values of the sample. *)
Lemma percentile_1d_between (a : list R) (q : R) :
  a ≠ [] → (0 <= q <= 100)%R →
  ∃ x y, x ∈ a ∧ y ∈ a ∧ (x <= percentile_1d a q <= y)%R.
Proof.
  intros Ha Hq.
  destruct (interpolates_between (np_sort a) _ _ (np_sort_sorted a)
              (percentile_1d_interpolates a q Ha Hq))
    as (x & y & Hx & Hy & Hxy).
  exists x, y. rewrite np_sort_perm in Hx, Hy. done.
Qed.

Lemma percentile_1d_ge (a : list R) (q b : R) :
  a ≠ [] → (0 <= q <= 100)%R → Forall (Rle b) a → (b <= percentile_1d a q)%R.
Proof.
  intros Ha Hq Hall.
  destruct (percentile_1d_between a q Ha Hq) as (x & _ & Hx & _ & Hle & _).
  rewrite Forall_forall in Hall. specialize (Hall x Hx). lra.
Qed.

(** The values of a column are cells of the array. *)
Lemma elem_of_column_ensemble {rng} (np_random_normal : R → R → rng → R * rng)
    (initial_amount monthly_contribution mu sigma : R) (g : rng)
    (months n m : nat) (x : R) :
  m ≤ months →
  x ∈ column (ensemble np_random_normal initial_amount monthly_contribution
                mu sigma g months n) m →
  ∃ i, i < n
       ∧ cell (ensemble np_random_normal initial_amount monthly_contribution
                 mu sigma g months n) i m = Some x.
Proof.
  intros Hm Hx. unfold column in Hx.
  apply list_elem_of_fmap in Hx as (row & -> & Hrow).
  apply list_elem_of_lookup in Hrow as [i Hi].
  assert (i < n) as Hin
    by (apply lookup_lt_Some in Hi; by rewrite length_ensemble in Hi).
  exists i. split; [done|]. unfold cell. rewrite Hi. cbn.
  rewrite lookup_ensemble in Hi by done. injection Hi as <-.
  destruct (lookup_lt_is_Some_2
              (path monthly_contribution initial_amount
                 (draws np_random_normal mu sigma
                    (state_after np_random_normal mu sigma g (i * months))
                    months)) m) as [v Hv].
  { rewrite length_path, length_draws. lia. }
  by rewrite Hv.
Qed.

(** X4.  At every month the lower bound is at least the value of some
    trajectory at that month and the upper bound at most the value of
    some trajectory: the three bands lie between the smallest and the
    largest simulated value of the month. *)
Theorem bands_within_ensemble {rng}
    (np_random_normal : R → R → rng → R * rng) (memory : Z)
    (initial_amount monthly_contribution : R) (risk_appetite years : Z) (g : rng) :
  (1 ≤ risk_appetite ≤ 8)%Z →
  horizon_fits memory years →
  ∃ params simulations cumulative_investment df g',
    risk_parameters !! risk_appetite = Some params
    ∧ simulate np_random_normal memory initial_amount monthly_contribution
        (monthly_return (mean_return params))
        (monthly_volatility (volatility params)) (years * 12) g
      = (Returns (simulations, cumulative_investment), g')
    ∧ calculate_investment_projection np_random_normal memory
        initial_amount monthly_contribution risk_appetite years g
      = (Returns df, g')
    ∧ ∀ m : nat, (Z.of_nat m ≤ years * 12)%Z →
        ∃ record (i j : nat) (smallest largest : R),
          iloc df m = Some record
          ∧ i < Z.to_nat num_simulations ∧ j < Z.to_nat num_simulations
          ∧ cell simulations i m = Some smallest
          ∧ cell simulations j m = Some largest
          ∧ (smallest <= lower_p10 record)%R
          ∧ (upper_p90 record <= largest)%R.
Proof.
  intros Hr Hy. pose proof (horizon_fits_nonneg _ _ Hy) as Hy0.
  destruct (risk_parameters_valid _ Hr) as (params & Hp & _ & Hvol).
  exists params. do 4 eexists. split_and!.
  - done.
  - apply simulate_fits; [apply monthly_volatility_nonneg; lra|done].
  - apply (projection_returns _ _ _ _ _ _ params); [done|lra|done].
  - intros m Hm.
    set (sims := ensemble np_random_normal initial_amount monthly_contribution
                   (monthly_return (mean_return params))
                   (monthly_volatility (volatility params)) g
                   (Z.to_nat (years * 12)) (Z.to_nat num_simulations)).
    assert (column sims m ≠ []) as Hne.
    { apply column_nonempty. unfold sims. rewrite length_ensemble.
      apply num_simulations_pos. }
    destruct (percentile_1d_between (column sims m) 10 Hne ltac:(lra))
      as (x & _ & Hx & _ & Hlo & _).
    destruct (percentile_1d_between (column sims m) 90 Hne ltac:(lra))
      as (_ & y & _ & Hy' & _ & Hhi).
    apply elem_of_column_ensemble in Hx as (i & Hi & Hci); [|lia].
    apply elem_of_column_ensemble in Hy' as (j & Hj & Hcj); [|lia].
    exists (mkRecord (Z.of_nat m) (IZR (Z.of_nat m) / 12)
              (percentile_1d (column sims m) 50)
              (percentile_1d (column sims m) 10)
              (percentile_1d (column sims m) 90)
              (initial_amount + INR m * monthly_contribution)), i, j, x, y.
    split_and!; try done.
    apply iloc_table_of; [|lia]. apply ncols_ensemble, num_simulations_pos.
Qed.

Lemma bands_within_ensemble_witness :
  ∃ params simulations cumulative_investment df g',
    risk_parameters !! 4%Z = Some params
    ∧ simulate replay 17179869184 1000000 5000
        (monthly_return (mean_return params))
        (monthly_volatility (volatility params)) (10 * 12) [0.5%R; (-1.25)%R]
      = (Returns (simulations, cumulative_investment), g')
    ∧ calculate_investment_projection replay 17179869184 1000000 5000 4 10
        [0.5%R; (-1.25)%R]
      = (Returns df, g')
    ∧ ∀ m : nat, (Z.of_nat m ≤ 10 * 12)%Z →
        ∃ record (i j : nat) (smallest largest : R),
          iloc df m = Some record
          ∧ i < Z.to_nat num_simulations ∧ j < Z.to_nat num_simulations
          ∧ cell simulations i m = Some smallest
          ∧ cell simulations j m = Some largest
          ∧ (smallest <= lower_p10 record)%R
          ∧ (upper_p90 record <= largest)%R.
Proof.
  apply (bands_within_ensemble replay 17179869184 1000000 5000 4 10
           [0.5%R; (-1.25)%R]);
    (lia || horizon_fits_by_computation).
Defined.

(** ** What the draws imply for the bands *)

Section Draws.
Context {rng : Type}.
Variable np_random_normal : R → R → rng → R * rng.
Variables (initial_amount monthly_contribution mu sigma : R).

(** A property of all the draws of a run holds of the draws of each
    trajectory. *)
Lemma Forall_trajectory_draws (P : R → Prop) (g : rng) (months n i : nat) :
  (∀ k, k < n * months →
        P (np_random_normal mu sigma
             (state_after np_random_normal mu sigma g k)).1) →
  i < n →
  Forall P (draws np_random_normal mu sigma
              (state_after np_random_normal mu sigma g (i * months)) months).
Proof.
  intros Hall Hi. apply Forall_lookup. intros k x Hx.
  assert (k < months) as Hk
    by (apply lookup_lt_Some in Hx; by rewrite length_draws in Hx).
  rewrite lookup_draws in Hx by done. injection Hx as <-.
  rewrite <- state_after_add. apply Hall. nia.
Qed.

(** A property of month [m] of every trajectory holds of the whole
    column [m]. *)
Lemma Forall_column_ensemble (P : R → Prop) (g : rng) (months n m : nat) :
  m ≤ months →
  (∀ i v, i < n →
          path monthly_contribution initial_amount
            (draws np_random_normal mu sigma
               (state_after np_random_normal mu sigma g (i * months)) months)
          !! m = Some v → P v) →
  Forall P (column (ensemble np_random_normal initial_amount
                      monthly_contribution mu sigma g months n) m).
Proof.
  intros Hm Hall. apply Forall_forall. intros x Hx.
  apply elem_of_column_ensemble in Hx as (i & Hi & Hx); [|done].
  unfold cell in Hx. rewrite lookup_ensemble in Hx by done. cbn in Hx.
  by apply (Hall i).
Qed.

End Draws.

Lemma geometric_sum_step (q : R) (m : nat) :
  (1 + q * geometric_sum q m = geometric_sum q m + q ^ m)%R.
Proof.
  induction m as [|m IH]; cbn [geometric_sum pow]; [ring|].
  replace (q ^ m)%R with (1 + q * geometric_sum q m - geometric_sum q m)%R
    by lra.
  ring.
Qed.

Lemma geometric_sum_closed (q : R) (m : nat) :
  (geometric_sum q m * (q - 1) = q ^ m - 1)%R.
Proof.
  induction m as [|m IH]; cbn [geometric_sum pow]; [ring|].
  replace ((1 + q * geometric_sum q m) * (q - 1))%R
    with (q - 1 + q * (geometric_sum q m * (q - 1)))%R by ring.
  rewrite IH. ring.
Qed.

(** A trajectory with the same return every month, in closed form. *)
Lemma lookup_path_replicate (c x r : R) (n m : nat) :
  m ≤ n →
  path c x (replicate n r) !! m
  = Some (x * (1 + r) ^ m + c * geometric_sum (1 + r) m)%R.
Proof.
  revert x m. induction n as [|n IH]; intros x m Hm.
  - replace m with 0 by lia. cbn. f_equal. ring.
  - destruct m as [|m]; [cbn; f_equal; ring|].
    change (path c x (replicate (S n) r) !! S m)
      with (path c (x * (1 + r) + c) (replicate n r) !! m).
    rewrite IH by lia. f_equal.
    cbn [pow geometric_sum]. rewrite (geometric_sum_step (1 + r) m). ring.
Qed.

(** With no negative return the value keeps up with the invested amount. *)
Lemma path_ge_invested (c x : R) (rs : list R) (m : nat) (v : R) :
  (0 <= x)%R → (0 <= c)%R → Forall (Rle 0) rs →
  path c x rs !! m = Some v → (x + INR m * c <= v)%R.
Proof.
  intros Hx Hc Hrs. revert x m Hx.
  induction Hrs as [|r rs Hr Hrs IH]; intros x m Hx Hv.
  - destruct m; [|done]. cbn in Hv. simplify_eq. simpl. lra.
  - destruct m as [|m]; [cbn in Hv; simplify_eq; simpl; lra|].
    change (path c (x * (1 + r) + c) rs !! m = Some v) in Hv.
    apply IH in Hv; [|nra]. rewrite S_INR. nra.
Qed.

(** With no return below -100% the value never goes negative. *)
Lemma path_nonneg (c x : R) (rs : list R) (m : nat) (v : R) :
  (0 <= x)%R → (0 <= c)%R → Forall (Rle (-1)) rs →
  path c x rs !! m = Some v → (0 <= v)%R.
Proof.
  intros Hx Hc Hrs. revert x m Hx.
  induction Hrs as [|r rs Hr Hrs IH]; intros x m Hx Hv.
  - destruct m; [|done]. cbn in Hv. by simplify_eq.
  - destruct m as [|m]; [cbn in Hv; by simplify_eq|].
    change (path c (x * (1 + r) + c) rs !! m = Some v) in Hv.
    apply IH in Hv; [done|nra].
Qed.

Lemma monthly_return_pos (annual_return : R) :
  (0 < annual_return)%R → (0 < monthly_return annual_return)%R.
Proof.
  intros Ha.
  destruct (Rlt_le_dec 0 (monthly_return annual_return)) as [|Hle];
    [done|exfalso].
  pose proof (monthly_return_compounds annual_return ltac:(lra)) as Hc.
  assert (0 < 1 + monthly_return annual_return)%R as Hpos.
  { unfold monthly_return, Rpower.
    pose proof (exp_pos (1 / 12 * ln (1 + annual_return))). lra. }
  assert ((1 + monthly_return annual_return) ^ 12 <= 1 ^ 12)%R as Hpow
    by (apply pow_incr; lra).
  rewrite pow1 in Hpow. lra.
Qed.

Lemma risk_parameters_positive (risk_appetite : Z) (params : RiskParameters) :
  risk_parameters !! risk_appetite = Some params →
  (0 < mean_return params)%R ∧ (0 < volatility params)%R.
Proof.
  rewrite risk_parameters_lookup.
  repeat case_bool_decide; intros; simplify_eq; simpl; lra.
Qed.

(** X5.  When every draw of a run is the same return [r] (as with a
    standard deviation of zero), all trajectories coincide and at every
    month [m] the median and both bounds are the deterministic
    compound-growth value
    [initial_amount * (1 + r)^m + monthly_contribution * (1 + (1+r) + ... + (1+r)^(m-1))],
    where the sum times [r] is [(1 + r)^m - 1]. *)
Theorem constant_draws {rng}
    (np_random_normal : R → R → rng → R * rng) (memory : Z)
    (initial_amount monthly_contribution r : R) (risk_appetite years : Z)
    (params : RiskParameters) (g : rng) :
  risk_parameters !! risk_appetite = Some params →
  horizon_fits memory years →
  (∀ k : nat, k < Z.to_nat num_simulations * Z.to_nat (years * 12) →
     (np_random_normal (monthly_return (mean_return params))
        (monthly_volatility (volatility params))
        (state_after np_random_normal (monthly_return (mean_return params))
           (monthly_volatility (volatility params)) g k)).1 = r) →
  ∃ df g',
    calculate_investment_projection np_random_normal memory
      initial_amount monthly_contribution risk_appetite years g
    = (Returns df, g')
    ∧ ∀ m : nat, (Z.of_nat m ≤ years * 12)%Z →
        let value := (initial_amount * (1 + r) ^ m
                      + monthly_contribution * geometric_sum (1 + r) m)%R in
        iloc df m
        = Some (mkRecord (Z.of_nat m) (IZR (Z.of_nat m) / 12) value value value
                  (initial_amount + INR m * monthly_contribution))
        ∧ (geometric_sum (1 + r) m * r = (1 + r) ^ m - 1)%R.
Proof.
  intros Hp Hy Hdraws.
  destruct (risk_parameters_positive _ _ Hp) as [_ Hvol].
  do 2 eexists. split.
  - apply (projection_returns _ _ _ _ _ _ params); [done|lra|done].
  - intros m Hm value. split.
    + rewrite iloc_table_of;
        [|apply ncols_ensemble, num_simulations_pos|lia].
      assert (Forall (eq value)
                (column
                   (ensemble np_random_normal initial_amount
                      monthly_contribution
                      (monthly_return (mean_return params))
                      (monthly_volatility (volatility params)) g
                      (Z.to_nat (years * 12)) (Z.to_nat num_simulations)) m))
        as Hcol.
      { apply Forall_column_ensemble; [lia|]. intros i v Hi Hv.
        erewrite <- (replicate_as_Forall_2 r (Z.to_nat (years * 12))
                       (draws _ _ _ _ _)) in Hv.
        - rewrite lookup_path_replicate in Hv by lia. by injection Hv.
        - apply length_draws.
        - apply (Forall_trajectory_draws _ _ _ (eq r) g _
                   (Z.to_nat num_simulations)); [|done].
          intros k Hk. symmetry. by apply Hdraws. }
      rewrite !(percentile_1d_const _ value); try lra; try done;
        apply column_nonempty; rewrite length_ensemble;
        apply num_simulations_pos.
    + replace r with (1 + r - 1)%R at 2 by ring. apply geometric_sum_closed.
Qed.

Lemma constant_draws_witness :
  ∃ df g',
    calculate_investment_projection replay 17179869184 1000000 5000 4 10 []
    = (Returns df, g')
    ∧ ∀ m : nat, (Z.of_nat m ≤ 10 * 12)%Z →
        let value := (1000000 * (1 + monthly_return 0.07) ^ m
                      + 5000 * geometric_sum (1 + monthly_return 0.07) m)%R in
        iloc df m
        = Some (mkRecord (Z.of_nat m) (IZR (Z.of_nat m) / 12) value value value
                  (1000000 + INR m * 5000))
        ∧ (geometric_sum (1 + monthly_return 0.07) m * monthly_return 0.07
           = (1 + monthly_return 0.07) ^ m - 1)%R.
Proof.
  apply (constant_draws replay 17179869184 1000000 5000 (monthly_return 0.07) 4 10
           (mkRisk 0.07 0.11) []); [reflexivity|horizon_fits_by_computation|].
  intros k _. by rewrite state_after_replay_nil.
Defined.

(** X6.  With non-negative amounts, when no draw of a run is negative
    the lower bound of every record is at least the invested amount (and
    with it the median and the upper bound): the bands never show a
    loss. *)
Theorem no_negative_draw_no_loss {rng}
    (np_random_normal : R → R → rng → R * rng) (memory : Z)
    (initial_amount monthly_contribution : R) (risk_appetite years : Z)
    (params : RiskParameters) (g : rng) :
  risk_parameters !! risk_appetite = Some params →
  horizon_fits memory years →
  (0 <= initial_amount)%R →
  (0 <= monthly_contribution)%R →
  (∀ k : nat, k < Z.to_nat num_simulations * Z.to_nat (years * 12) →
     (0 <= (np_random_normal (monthly_return (mean_return params))
              (monthly_volatility (volatility params))
              (state_after np_random_normal
                 (monthly_return (mean_return params))
                 (monthly_volatility (volatility params)) g k)).1)%R) →
  ∃ df g',
    calculate_investment_projection np_random_normal memory
      initial_amount monthly_contribution risk_appetite years g
    = (Returns df, g')
    ∧ ∀ m : nat, (Z.of_nat m ≤ years * 12)%Z →
        ∃ record,
          iloc df m = Some record
          ∧ (cumulative_contribution record <= lower_p10 record)%R
          ∧ (lower_p10 record <= median record <= upper_p90 record)%R.
Proof.
  intros Hp Hy Hinit Hcontr Hdraws.
  destruct (risk_parameters_positive _ _ Hp) as [_ Hvol].
  do 2 eexists. split.
  - apply (projection_returns _ _ _ _ _ _ params); [done|lra|done].
  - intros m Hm. eexists. split.
    + apply iloc_table_of;
        [apply ncols_ensemble, num_simulations_pos|lia].
    + cbn [cumulative_contribution lower_p10 median upper_p90].
      assert (column
                (ensemble np_random_normal initial_amount monthly_contribution
                   (monthly_return (mean_return params))
                   (monthly_volatility (volatility params)) g
                   (Z.to_nat (years * 12)) (Z.to_nat num_simulations)) m ≠ [])
        as Hne
        by (apply column_nonempty; rewrite length_ensemble;
            apply num_simulations_pos).
      split; [|split; apply percentile_1d_mono; (done || lra)].
      apply percentile_1d_ge; [done|lra|].
      apply Forall_column_ensemble; [lia|]. intros i v Hi Hv.
      eapply (path_ge_invested monthly_contribution initial_amount);
        [done|done| |exact Hv].
      by apply (Forall_trajectory_draws _ _ _ (Rle 0) g _
                  (Z.to_nat num_simulations)).
Qed.

Lemma no_negative_draw_no_loss_witness :
  ∃ df g',
    calculate_investment_projection replay 17179869184 1000000 5000 4 10 []
    = (Returns df, g')
    ∧ ∀ m : nat, (Z.of_nat m ≤ 10 * 12)%Z →
        ∃ record,
          iloc df m = Some record
          ∧ (cumulative_contribution record <= lower_p10 record)%R
          ∧ (lower_p10 record <= median record <= upper_p90 record)%R.
Proof.
  apply (no_negative_draw_no_loss replay 17179869184 1000000 5000 4 10
           (mkRisk 0.07 0.11) []); [reflexivity|horizon_fits_by_computation|lra|lra|].
  intros k _. rewrite state_after_replay_nil. cbn.
  left. apply monthly_return_pos. lra.
Defined.

(** X7.  With non-negative amounts, when no draw of a run is below
    -100% every band of every record is non-negative. *)
Theorem bands_nonnegative {rng}
    (np_random_normal : R → R → rng → R * rng) (memory : Z)
    (initial_amount monthly_contribution : R) (risk_appetite years : Z)
    (params : RiskParameters) (g : rng) :
  risk_parameters !! risk_appetite = Some params →
  horizon_fits memory years →
  (0 <= initial_amount)%R →
  (0 <= monthly_contribution)%R →
  (∀ k : nat, k < Z.to_nat num_simulations * Z.to_nat (years * 12) →
     (-1 <= (np_random_normal (monthly_return (mean_return params))
               (monthly_volatility (volatility params))
               (state_after np_random_normal
                  (monthly_return (mean_return params))
                  (monthly_volatility (volatility params)) g k)).1)%R) →
  ∃ df g',
    calculate_investment_projection np_random_normal memory
      initial_amount monthly_contribution risk_appetite years g
    = (Returns df, g')
    ∧ ∀ m : nat, (Z.of_nat m ≤ years * 12)%Z →
        ∃ record,
          iloc df m = Some record
          ∧ (0 <= lower_p10 record)%R
          ∧ (0 <= median record)%R
          ∧ (0 <= upper_p90 record)%R.
Proof.
  intros Hp Hy Hinit Hcontr Hdraws.
  destruct (risk_parameters_positive _ _ Hp) as [_ Hvol].
  do 2 eexists. split.
  - apply (projection_returns _ _ _ _ _ _ params); [done|lra|done].
  - intros m Hm. eexists. split.
    + apply iloc_table_of;
        [apply ncols_ensemble, num_simulations_pos|lia].
    + cbn [lower_p10 median upper_p90].
      split_and!; (apply percentile_1d_ge;
        [apply column_nonempty; rewrite length_ensemble;
         apply num_simulations_pos|lra|]).
      all: apply Forall_column_ensemble; [lia|]; intros i v Hi Hv.
      all: eapply (path_nonneg monthly_contribution initial_amount);
             [done|done| |exact Hv].
      all: by apply (Forall_trajectory_draws _ _ _ (Rle (-1)%R) g _
                       (Z.to_nat num_simulations)).
Qed.

Lemma bands_nonnegative_witness :
  ∃ df g',
    calculate_investment_projection replay 17179869184 1000000 5000 4 10 []
    = (Returns df, g')
    ∧ ∀ m : nat, (Z.of_nat m ≤ 10 * 12)%Z →
        ∃ record,
          iloc df m = Some record
          ∧ (0 <= lower_p10 record)%R
          ∧ (0 <= median record)%R
          ∧ (0 <= upper_p90 record)%R.
Proof.
  apply (bands_nonnegative replay 17179869184 1000000 5000 4 10
           (mkRisk 0.07 0.11) []); [reflexivity|horizon_fits_by_computation|lra|lra|].
  intros k _. rewrite state_after_replay_nil. cbn.
  pose proof (monthly_return_pos 0.07 ltac:(lra)). lra.
Defined.

(** ** Scaling the amounts *)

Lemma path_scale (k c x : R) (rs : list R) :
  path (k * c) (k * x) rs = Rmult k <$> path c x rs.
Proof.
  revert x. induction rs as [|r rs IH]; intros x; [done|].
  cbn [path fmap list_fmap]. f_equal.
  replace (k * x * (1 + r) + k * c)%R with (k * (x * (1 + r) + c))%R by ring.
  apply IH.
Qed.

Lemma contributions_scale (k c x : R) (n : nat) :
  contributions (k * c) (k * x) n = Rmult k <$> contributions c x n.
Proof.
  revert x. induction n as [|n IH]; intros x; [done|].
  cbn [contributions fmap list_fmap]. f_equal.
  replace (k * x + k * c)%R with (k * (x + c))%R by ring.
  apply IH.
Qed.

Lemma column_scale (k : R) (a : ndarray) (j : nat) :
  column (fmap (M:=list) (Rmult k) <$> a) j = Rmult k <$> column a j.
Proof.
  unfold column. rewrite <- !list_fmap_compose.
  apply list_fmap_ext. intros _ row _. cbn.
  rewrite list_lookup_fmap. destruct (row !! j); cbn; [done|ring].
Qed.

Lemma ncols_scale (k : R) (a : ndarray) :
  ncols (fmap (M:=list) (Rmult k) <$> a) = ncols a.
Proof. destruct a as [|row a]; [done|]. cbn. apply length_fmap. Qed.

(** A percentile of the scaled sample is the scaled percentile. *)
Lemma percentile_1d_scale (k : R) (a : list R) (q : R) :
  (0 <= k)%R → a ≠ [] → (0 <= q <= 100)%R →
  percentile_1d (Rmult k <$> a) q = (k * percentile_1d a q)%R.
Proof.
  intros Hk Ha Hq.
  apply (is_percentile_unique (Rmult k <$> a) q).
  - apply percentile_1d_is_percentile; [|done]. by destruct a.
  - destruct (percentile_1d_is_percentile a q Ha Hq)
      as (s & Hperm & Hsorted & (i & w & lo & hi & Hrank & Hw & Hlo & Hhi & ->)).
    exists (Rmult k <$> s). split_and!.
    + by rewrite Hperm.
    + eapply Sorted_fmap; [|done]. intros x y Hxy. by apply Rmult_le_compat_l.
    + rewrite length_fmap.
      exists i, w, (k * lo)%R, (k * hi)%R.
      split_and!; [done|lra|lra| | |ring].
      * by rewrite list_lookup_fmap, Hlo.
      * destruct Hhi as [[-> ->]|Hhi]; [by left|right].
        by rewrite list_lookup_fmap, Hhi.
Qed.

(** X8.  Multiplying the initial amount and the monthly contribution
    by the same factor [k >= 0] multiplies every figure of the table by
    [k], record by record, over the same draws. *)
Theorem amounts_scale {rng}
    (np_random_normal : R → R → rng → R * rng) (memory : Z)
    (k initial_amount monthly_contribution : R) (risk_appetite years : Z)
    (g : rng) :
  (0 <= k)%R →
  (1 ≤ risk_appetite ≤ 8)%Z →
  horizon_fits memory years →
  ∃ df scaled g',
    calculate_investment_projection np_random_normal memory
      initial_amount monthly_contribution risk_appetite years g
    = (Returns df, g')
    ∧ calculate_investment_projection np_random_normal memory
        (k * initial_amount) (k * monthly_contribution) risk_appetite years g
      = (Returns scaled, g')
    ∧ ∀ m : nat, (Z.of_nat m ≤ years * 12)%Z →
        ∃ record record',
          iloc df m = Some record
          ∧ iloc scaled m = Some record'
          ∧ month record' = month record
          ∧ year record' = year record
          ∧ median record' = (k * median record)%R
          ∧ lower_p10 record' = (k * lower_p10 record)%R
          ∧ upper_p90 record' = (k * upper_p90 record)%R
          ∧ cumulative_contribution record'
            = (k * cumulative_contribution record)%R.
Proof.
  intros Hk Hr Hy.
  destruct (risk_parameters_valid _ Hr) as (params & Hp & _ & Hvol).
  do 3 eexists. split_and!.
  - apply (projection_returns _ _ _ _ _ _ params); [done|lra|done].
  - apply (projection_returns _ _ _ _ _ _ params); [done|lra|done].
  - intros m Hm.
    set (mu := monthly_return (mean_return params)).
    set (sigma := monthly_volatility (volatility params)).
    set (months := Z.to_nat (years * 12)).
    set (n := Z.to_nat num_simulations).
    set (sims := ensemble np_random_normal initial_amount monthly_contribution
                   mu sigma g months n).
    assert (ensemble np_random_normal (k * initial_amount)
              (k * monthly_contribution) mu sigma g months n
            = fmap (M:=list) (Rmult k) <$> sims) as ->.
    { unfold sims, ensemble. rewrite <- list_fmap_compose.
      apply list_fmap_ext. intros _ t _. cbn. apply path_scale. }
    assert (column sims m ≠ []) as Hne.
    { apply column_nonempty. unfold sims. rewrite length_ensemble.
      apply num_simulations_pos. }
    do 2 eexists. split_and!.
    + apply iloc_table_of; [apply ncols_ensemble, num_simulations_pos|lia].
    + apply iloc_table_of; [|lia].
      rewrite ncols_scale. apply ncols_ensemble, num_simulations_pos.
    + done.
    + done.
    + cbn. rewrite column_scale. apply percentile_1d_scale; [done|done|lra].
    + cbn. rewrite column_scale. apply percentile_1d_scale; [done|done|lra].
    + cbn. rewrite column_scale. apply percentile_1d_scale; [done|done|lra].
    + cbn. ring.
Qed.

Lemma amounts_scale_witness :
  ∃ df scaled g',
    calculate_investment_projection replay 17179869184 1000000 5000 4 10 [0.5%R]
    = (Returns df, g')
    ∧ calculate_investment_projection replay 17179869184
        (2.5 * 1000000) (2.5 * 5000) 4 10 [0.5%R]
      = (Returns scaled, g')
    ∧ ∀ m : nat, (Z.of_nat m ≤ 10 * 12)%Z →
        ∃ record record',
          iloc df m = Some record
          ∧ iloc scaled m = Some record'
          ∧ month record' = month record
          ∧ year record' = year record
          ∧ median record' = (2.5 * median record)%R
          ∧ lower_p10 record' = (2.5 * lower_p10 record)%R
          ∧ upper_p90 record' = (2.5 * upper_p90 record)%R
          ∧ cumulative_contribution record'
            = (2.5 * cumulative_contribution record)%R.
Proof.
  apply (amounts_scale replay 17179869184 2.5 1000000 5000 4 10 [0.5%R]);
    [lra|lia|horizon_fits_by_computation].
Defined.

(** ** The page *)

Lemma normalize_index_last (len : nat) :
  0 < len → normalize_index len (-1) = Some (len - 1).
Proof.
  intros Hlen. unfold normalize_index.
  rewrite bool_decide_eq_false_2 by lia.
  rewrite bool_decide_eq_true_2 by lia. f_equal. lia.
Qed.

Lemma series_iloc_last {rng} (series : list R) (x : R) (g : rng) :
  series !! (length series - 1) = Some x →
  series_iloc series (-1) g = (Returns x, g).
Proof.
  intros Hx. unfold series_iloc.
  rewrite normalize_index_last by (apply lookup_lt_Some in Hx; lia).
  by rewrite Hx.
Qed.

(** X9.  Called as at lines 145-150 with any values the four sidebar
    widgets can return, and 1,928,000 bytes granted to an array (the
    size at the longest horizon, 20 years), the engine returns a table
    of [12 * investment_horizon + 1] records, and on that table lines
    205-207 do not raise and compute: the median of the last record,
    the invested total
    [initial_amount + 12 * investment_horizon * monthly_contribution]
    (between 506,000 and 17,200,000), and their difference. *)
Theorem figures_of_sidebar_values {rng}
    (np_random_normal : R → R → rng → R * rng) (memory : Z)
    (initial_amount monthly_contribution risk_appetite investment_horizon : Z)
    (g : rng) :
  sidebar_values initial_amount monthly_contribution risk_appetite
    investment_horizon →
  (array_bytes 20 ≤ memory)%Z →
  ∃ df record g',
    calculate_investment_projection np_random_normal memory
      (IZR initial_amount) (IZR monthly_contribution)
      risk_appetite investment_horizon g
    = (Returns df, g')
    ∧ nrows df = S (Z.to_nat (12 * investment_horizon))
    ∧ iloc df (Z.to_nat (12 * investment_horizon)) = Some record
    ∧ final_figures df g'
      = (Returns
           (median record,
            IZR (initial_amount + 12 * investment_horizon * monthly_contribution),
            (median record
             - IZR (initial_amount
                    + 12 * investment_horizon * monthly_contribution))%R),
         g')
    ∧ (506000 ≤ initial_amount + 12 * investment_horizon * monthly_contribution
       ≤ 17200000)%Z.
Proof.
  intros (Hinit & Hcontr & Hr & Hh) Hmem.
  assert (horizon_fits memory investment_horizon) as Hfits.
  { revert Hmem.
    unfold horizon_fits, array_bytes, num_simulations, NPY_MAX_INTP. lia. }
  destruct (risk_parameters_valid _ Hr) as (params & Hp & _ & Hvol).
  set (months := Z.to_nat (investment_horizon * 12)).
  set (sims := ensemble np_random_normal (IZR initial_amount)
                 (IZR monthly_contribution)
                 (monthly_return (mean_return params))
                 (monthly_volatility (volatility params)) g months
                 (Z.to_nat num_simulations)).
  assert (ncols sims = S months) as Hcols
    by apply ncols_ensemble, num_simulations_pos.
  assert (calculate_investment_projection np_random_normal memory
            (IZR initial_amount) (IZR monthly_contribution)
            risk_appetite investment_horizon g
          = (Returns
               (table_of (IZR initial_amount) (IZR monthly_contribution)
                  sims months),
             state_after np_random_normal
               (monthly_return (mean_return params))
               (monthly_volatility (volatility params)) g
               (Z.to_nat num_simulations * months))) as Hrun
    by (apply (projection_returns _ _ _ _ _ _ params); [done|lra|done]).
  assert (IZR initial_amount + INR months * IZR monthly_contribution
          = IZR (initial_amount + 12 * investment_horizon * monthly_contribution))%R
    as Htotal.
  { unfold months. rewrite INR_IZR_INZ, Z2Nat.id by lia.
    rewrite <- mult_IZR, <- plus_IZR. f_equal. lia. }
  replace (Z.to_nat (12 * investment_horizon)) with months by (unfold months; lia).
  do 3 eexists. split_and!.
  - exact Hrun.
  - apply nrows_table_of.
  - by apply iloc_table_of.
  - unfold final_figures.
    erewrite bind_returns.
    2:{ apply series_iloc_last. cbn [table_of Median_Projection].
        rewrite length_np_percentile, Hcols.
        replace (S months - 1) with months by lia.
        apply lookup_np_percentile. lia. }
    erewrite bind_returns.
    2:{ apply series_iloc_last. cbn [table_of Cumulative_Investment].
        rewrite length_contributions.
        replace (S months - 1) with months by lia.
        by apply lookup_contributions. }
    cbn [median]. by rewrite Htotal.
  - nia.
  - nia.
Qed.

Lemma figures_of_sidebar_values_witness :
  ∃ df record g',
    calculate_investment_projection replay 1928000
      (IZR 1000000) (IZR 5000) 4 10 [0.5%R]
    = (Returns df, g')
    ∧ nrows df = S (Z.to_nat (12 * 10))
    ∧ iloc df (Z.to_nat (12 * 10)) = Some record
    ∧ final_figures df g'
      = (Returns
           (median record, IZR (1000000 + 12 * 10 * 5000),
            (median record - IZR (1000000 + 12 * 10 * 5000))%R),
         g')
    ∧ (506000 ≤ 1000000 + 12 * 10 * 5000 ≤ 17200000)%Z.
Proof.
  apply (figures_of_sidebar_values replay 1928000 1000000 5000 4 10 [0.5%R]).
  - unfold sidebar_values. lia.
  - unfold array_bytes, num_simulations. lia.
Defined.
